(** * paperexport.py: figure and table generation for the rotletter18 paper

    A shallow embedding of the parts of [paperexport.py] that carry the
    script's own logic: the path helper [build_filepath], the [write_plot]
    decorator, the two table writers, [running_percentile], the
    scatter-simulation loop of [binary_fit] and the command-line entry
    point.  Catalog loading, isochrone evaluation, fitting and rendering
    are done by collaborators outside the script; they appear here as
    arguments of the embedded functions. *)

From Stdlib Require Import QArith Ascii String Lqa.
From stdpp Require Import gmap strings list fin_maps sorting pretty.

Local Open Scope string_scope.
Local Open Scope Z_scope.
Local Open Scope list_scope.

(** ** Python exceptions and results *)

Inductive exn : Type :=
| KeyError (key : string)
| ValueError (msg : string)
| IndexError (msg : string)
| TypeError (msg : string)
| OSError (path : string)
| NameError (name : string)
| SystemExit (code : Z)
| Exception (msg : string).

Inductive result (A : Type) : Type :=
| Ok (a : A)
| Raise (e : exn).
Arguments Ok {A} a.
Arguments Raise {A} e.

Definition rbind {A B} (r : result A) (k : A -> result B) : result B :=
  match r with
  | Ok a => k a
  | Raise e => Raise e
  end.

(** ** Floating-point cells

    The script only compares periods with constants; it never does
    arithmetic of its own on them.  A float is therefore kept as the real
    number it denotes, next to the three special IEEE values, and the
    comparisons follow IEEE: every ordered comparison with NaN is false. *)

Inductive fval : Type :=
| NaN
| NegInf
| PosInf
| Finite (q : Q).

Definition Qlt_bool (a b : Q) : bool := negb (Qle_bool b a).

Definition float_lt (a b : fval) : bool :=
  match a, b with
  | NaN, _ | _, NaN => false
  | NegInf, NegInf => false
  | NegInf, _ => true
  | _, NegInf => false
  | PosInf, _ => false
  | Finite _, PosInf => true
  | Finite x, Finite y => Qlt_bool x y
  end.

Definition float_le (a b : fval) : bool :=
  match a, b with
  | NaN, _ | _, NaN => false
  | NegInf, _ => true
  | _, NegInf => false
  | _, PosInf => true
  | PosInf, Finite _ => false
  | Finite x, Finite y => Qle_bool x y
  end.

Definition float_gt (a b : fval) : bool := float_lt b a.

(** ** Tables (astropy.table.Table)

    A table has an ordered list of column names and a list of rows; a row
    maps column names to cells. *)

Inductive value : Type :=
| VInt (z : Z)
| VFloat (x : fval)
| VStr (s : string)
| VMasked.

Record Table : Type := mkTable {
  colnames : list string;
  rows : list (gmap string value);
  meta_comments : list string
}.

(** What [Table.write] leaves in a file: the output format, the header
    (the [names] argument), one list of cells per row, and the keyword
    arguments that steer the rendering. *)
Record LatexDict : Type := mkLatexDict {
  col_align : string;
  caption : string;
  tablefoot : string;
  units : list (string * string)
}.

Record WrittenTable : Type := mkWritten {
  w_format : string;
  w_names : list string;
  w_cells : list (list value);
  w_comments : list string;
  w_formats : list (string * string);
  w_fill_values : list (string * list string);
  w_latexdict : option LatexDict
}.

(** ** The world the script acts on

    [figures] is pyplot's stack of open figures (current figure first), a
    figure being the list of what was drawn on it; [files] is the file
    system; [stdout] the printed lines; [rng] numpy's global generator. *)

Definition Figure : Type := list string.

Inductive FileContent : Type :=
| PlotFile (fig : Figure)
| TableFile (t : WrittenTable).

Record World : Type := mkWorld {
  figures : list Figure;
  files : gmap string FileContent;
  stdout : list string;
  rng : Z
}.

(** Statements run in the world and either return or raise; the world
    reached is kept in both cases. *)
Definition M (A : Type) : Type := World -> World * result A.

Definition ret {A} (a : A) : M A := fun w => (w, Ok a).
Definition raise {A} (e : exn) : M A := fun w => (w, Raise e).
Definition bind {A B} (m : M A) (k : A -> M B) : M B :=
  fun w =>
    match m w with
    | (w1, Ok a) => k a w1
    | (w1, Raise e) => (w1, Raise e)
    end.
Definition lift {A} (r : result A) : M A := fun w => (w, r).

Notation "x <- m ;; k" := (bind m (fun x => k))
  (at level 100, m at next level, right associativity).
Notation "m ;;; k" := (bind m (fun _ => k))
  (at level 100, right associativity).

Definition print (line : string) : M unit :=
  fun w => (mkWorld (figures w) (files w) (stdout w ++ [line]) (rng w), Ok tt).

(** ** Paths (pathlib.PurePosixPath) *)

Record Path : Type := mkPath {
  root : string;
  parts : list string
}.

Fixpoint split_on (c : Ascii.ascii) (s : string) : list string :=
  match s with
  | EmptyString => [EmptyString]
  | String a s' =>
      if Ascii.eqb a c then EmptyString :: split_on c s'
      else match split_on c s' with
           | [] => [String a EmptyString]
           | h :: t => String a h :: t
           end
  end.

Definition path_component (p : string) : bool :=
  negb (String.eqb p "") && negb (String.eqb p ".").

Definition parse_root (s : string) : string :=
  if String.prefix "///" s then "/"
  else if String.prefix "//" s then "//"
  else if String.prefix "/" s then "/"
  else "".

Definition path_of_string (s : string) : Path :=
  mkPath (parse_root s) (filter (fun p => Is_true (path_component p)) (split_on "/"%char s)).

(** [p / s] *)
Definition truediv (p : Path) (s : string) : Path :=
  let q := path_of_string s in
  if String.eqb (root q) "" then mkPath (root p) (parts p ++ parts q) else q.

(** [str(p)] *)
Definition path_str (p : Path) : string :=
  match parts p with
  | [] => if String.eqb (root p) "" then "." else root p
  | _ => root p +:+ String.concat "/" (parts p)
  end.

Notation "p // s" := (truediv p s) (at level 40, left associativity).

(** ** Output locations *)

Definition PAPER_PATH (HOME_DIR : Path) : Path := HOME_DIR // "papers" // "rotletter18".
Definition TABLE_PATH (HOME_DIR : Path) : Path := PAPER_PATH HOME_DIR // "tables".
Definition FIGURE_PATH (HOME_DIR : Path) : Path := PAPER_PATH HOME_DIR // "fig".
Definition PLOT_SUFFIX : string := "pdf".

Definition build_filepath (toplevel : Path) (filename suffix : string) : string :=
  let fullpath := toplevel // String.concat "." [filename; suffix] in
  path_str fullpath.

(** ** pyplot *)

(** [plt.close("all")] *)
Definition plt_close_all : M unit :=
  fun w => (mkWorld [] (files w) (stdout w) (rng w), Ok tt).

(** [plt.savefig(path)]: the current figure is written to [path]; without
    an open figure pyplot first opens an empty one. *)
Definition plt_savefig (path : string) : M unit :=
  fun w =>
    let figs := match figures w with [] => [[]] | _ => figures w end in
    let current := match figs with fig :: _ => fig | [] => [] end in
    (mkWorld figs (<[path := PlotFile current]> (files w)) (stdout w) (rng w), Ok tt).

(** ** The [write_plot] decorator *)

Definition write_plot {A} (filename : string) (suffix : string) (toplevel : Path)
    (f : M A) : M A :=
  plt_close_all ;;;
  a <- f ;;
  let filepath := build_filepath toplevel filename suffix in
  plt_savefig filepath ;;;
  ret a.

(** ** Table operations *)

Fixpoint result_map {A B} (f : A -> result B) (l : list A) : result (list B) :=
  match l with
  | [] => Ok []
  | a :: l' =>
      rbind (f a) (fun b => rbind (result_map f l') (fun bs => Ok (b :: bs)))
  end.

(** [t[name]]: one column, top to bottom. *)
Definition table_getitem (name : string) (t : Table) : result (list value) :=
  if bool_decide (name ∈ colnames t)
  then Ok (map (fun r : gmap string value => default VMasked (r !! name)) (rows t))
  else Raise (KeyError name).

Definition value_as_float (v : value) : option fval :=
  match v with
  | VInt z => Some (Finite (inject_Z z))
  | VFloat x => Some x
  | VStr _ | VMasked => None
  end.

(** The comparisons of the script are on numeric columns.  A cell that
    is a string raises; a masked cell has no value in this model (numpy
    compares the value stored under the mask), and is reported like a
    string cell. *)
Definition compare_cell (cmp : fval -> fval -> bool) (c : fval) (v : value) : result bool :=
  match value_as_float v with
  | Some x => Ok (cmp x c)
  | None => Raise (TypeError "ordering comparison on a non-numeric cell")
  end.

(** [col > c], [col <= c], [col < c] *)
Definition column_gt (col : list value) (c : fval) : result (list bool) :=
  result_map (compare_cell float_gt c) col.
Definition column_le (col : list value) (c : fval) : result (list bool) :=
  result_map (compare_cell float_le c) col.
Definition column_lt (col : list value) (c : fval) : result (list bool) :=
  result_map (compare_cell float_lt c) col.

(** [np.logical_and(a, b)]: element by element; an array of length one
    is broadcast, other arrays have to agree in length. *)
Definition np_logical_and (a b : list bool) : result (list bool) :=
  match a, b with
  | [x], _ => Ok (map (andb x) b)
  | _, [y] => Ok (map (fun x => x && y) a)
  | _, _ =>
      if Nat.eqb (length a) (length b) then Ok (zip_with andb a b)
      else Raise (ValueError "operands could not be broadcast together")
  end.

(** [t[mask]]: the rows whose mask entry is true; the mask has to have one
    entry per row. *)
Definition table_mask (t : Table) (mask : list bool) : result Table :=
  if Nat.eqb (length mask) (length (rows t)) then
    Ok (mkTable (colnames t)
          (map fst (filter (fun rb : gmap string value * bool => Is_true (snd rb))
                           (zip (rows t) mask)))
          (meta_comments t))
  else Raise (IndexError "boolean index did not match indexed array").

(** [t[cols]]: the named columns only, in the order asked for. *)
Definition table_getitem_cols (cols : list string) (t : Table) : result Table :=
  match List.find (fun c => negb (bool_decide (c ∈ colnames t))) cols with
  | Some c => Raise (KeyError c)
  | None =>
      Ok (mkTable cols
            (map (fun r : gmap string value =>
                    filter (fun kv : string * value => kv.1 ∈ cols) r) (rows t))
            (meta_comments t))
  end.

(** The script sorts on the integer identifier column only: the sort key
    of a row is its integer cell.  A key column with a cell of another
    kind, which astropy would sort by its own order, is outside this model
    and is reported as a [TypeError]. *)
Definition int_cell (name : string) (r : gmap string value) : option Z :=
  match r !! name with
  | Some (VInt z) => Some z
  | _ => None
  end.

Definition sort_key (name : string) (r : gmap string value) : Z :=
  default 0 (int_cell name r).

Definition row_le (name : string) (r1 r2 : gmap string value) : Prop :=
  sort_key name r1 <= sort_key name r2.

#[global] Instance row_le_dec name : RelDecision (row_le name).
Proof. intros r1 r2. unfold row_le. apply Z_le_dec. Defined.

(** [t.sort(name)] *)
Definition table_sort (name : string) (t : Table) : result Table :=
  if bool_decide (name ∈ colnames t) then
    rbind (result_map (fun r => match int_cell name r with
                                | Some z => Ok z
                                | None => Raise (TypeError "sort key is not an integer")
                                end) (rows t))
          (fun _ => Ok (mkTable (colnames t) (merge_sort (row_le name) (rows t))
                                (meta_comments t)))
  else Raise (KeyError name).

(** [t[:n]] *)
Definition table_head (n : nat) (t : Table) : Table :=
  mkTable (colnames t) (take n (rows t)) (meta_comments t).

(** [t.meta["comments"] = comments] *)
Definition set_comments (comments : list string) (t : Table) : Table :=
  mkTable (colnames t) (rows t) comments.

Definition table_cells (t : Table) : list (list value) :=
  map (fun r : gmap string value =>
         map (fun c => default VMasked (r !! c)) (colnames t)) (rows t).

Definition no_rows (t : Table) : bool :=
  match rows t with
  | [] => true
  | _ :: _ => false
  end.

(** [t.write(path, format=.., names=.., overwrite=.., ..)]: an existing
    file is an error unless [overwrite] is set; [names] has to give one
    name per column.  The lines are rendered before the file is opened:
    the fixed-width writer sizes every column by the widest of its data
    cells, [max(len(vals[i]) for vals in vals_list)], and so raises on a
    table without rows, leaving the file system as it was; the AASTeX
    writer accepts such a table. *)
Definition table_write (t : Table) (path format : string) (names : list string)
    (overwrite : bool) (formats : list (string * string))
    (fill_values : list (string * list string)) (latexdict : option LatexDict) : M unit :=
  fun w =>
    if negb overwrite && bool_decide (is_Some (files w !! path))
    then (w, Raise (OSError path))
    else if negb (Nat.eqb (length names) (length (colnames t)))
    then (w, Raise (ValueError "names does not match the number of columns"))
    else if String.eqb format "ascii.fixed_width" && no_rows t
    then (w, Raise (ValueError "max() arg is an empty sequence"))
    else
      let content := TableFile (mkWritten format names (table_cells t)
                                  (meta_comments t) formats fill_values latexdict) in
      (mkWorld (figures w) (<[path := content]> (files w)) (stdout w) (rng w), Ok tt).

(** ** Collaborators of the table writers

    [mcquillan_corrected_splitter] is the splitter object returned by the
    cache, seen through its [subsample] method; [read_dr14_allStar] is the
    APOGEE catalog; [join_by_2MASS_key] takes the two tables, the two key
    columns and the join type.

    The record holds what these calls return in the run under study.  The
    modules behind them are not part of the script: a call that raises
    there, or that prints or writes a cache file, is not described by this
    record, and the statements below are about runs in which the three
    calls return these tables and leave figures, output and the table
    files alone. *)
Record Collaborators : Type := mkCollaborators {
  mcquillan_corrected_splitter : list string -> Table;
  read_dr14_allStar : Table;
  join_by_2MASS_key : Table -> Table -> string -> string -> string -> Table
}.

Definition Protstr : string := "$P_{\mathrm{rot}}$".

Definition abridged_cols : list string :=
  ["kepid"; "APOGEE_ID"; "SDSS-Teff"; "kmag"; "M_K"; "Corrected K Excess";
   "Prot"; "FE_H"].

Definition latex_colnames : list string :=
  ["KIC"; "APOGEE ID"; "$\Teff$"; "\(K\)"; "\MK"; "$\Delta \MK$"; Protstr; "\feh"].

Definition ascii_colnames : list string :=
  ["KIC"; "APOGEE_ID"; "Teff"; "K"; "MK"; "DELTA_K"; "Prot"; "[Fe/H]"].

Definition latex_units : list (string * string) :=
  [("$\Teff$", "K"); ("\(K\)", "mag"); ("\MK", "mag"); ("$\Delta \MK$", "mag");
   (Protstr, "day"); ("\feh", "dex")].

Definition latex_colformats : list (string * string) :=
  [("$\Teff$", "g"); ("\MK", ".3f"); ("$\Delta \MK$", ".3f"); ("\feh", ".2f")].

Definition ascii_colformats : list (string * string) :=
  [("Teff", "g"); ("MK", ".3f"); ("DELTA_K", ".3f"); ("[Fe/H]", ".2f")].

Definition badformat : list (string * list string) :=
  [("", ["APOGEE_ID"; "[FE_H]"])].

Definition table_comments : list string :=
  ["KIC - The Kepler Input Catalog ID for the star";
   "APOGEE_ID - The APOGEE_ID if this star was observed in APOGEE. The APOGEE_ID is equivalent to the 2MASS ID";
   "Teff - The effective temperature from Pinsonneault et al (2012)";
   "K - The 2MASS K-band apparent magnitude";
   "MK - The 2MASS K-band absolute magnitude derived from Gaia parallaxes";
   "DELTA_K - The vertical displacement above the median-metallicity MIST isochrone as derived in this work.";
   "[Fe/H] - The APOGEE iron abundance if this star was observed in APOGEE."].

Definition rapid_caption : string := "\Kepler{} Rapid Rotators\label{tab:rapidrot}".

Definition rapid_tablefoot : string :=
  "\tablecomments{All objects in \citet{McQuillan14} with periods
        between 1.5--7 days and 4000 K < $\Teff{}$ < 5250 K. For objects with 
        APOGEE observations, their APOGEE ID and \feh{} are given. This table is 
        published in its entirety in the machine-readable format. A portion is
        shown here for guidance regarding its form and content.}".

Definition marginal_caption : string :=
  "\Kepler{} Synchronization Follow-up Targets\label{tab:marginalrot}".

Definition marginal_tablefoot : string :=
  "\tablecomments{All objects in \citet{McQuillan14} with periods
        between 7--11 days and 4000 K < $\Teff{}$ < 5250 K. For objects with 
        APOGEE observations, their APOGEE ID and \feh{} are given. This table is 
        published in its entirety in the machine-readable format. A portion is
        shown here for guidance regarding its form and content.}".

(** ** The table writers *)

(** [np.logical_and(mcq_dwarfs["Prot"] > 1.5, mcq_dwarfs["Prot"] <= 7)] *)
Definition rapid_period_mask (mcq_dwarfs : Table) : result (list bool) :=
  rbind (rbind (table_getitem "Prot" mcq_dwarfs)
               (fun col => column_gt col (Finite (3 # 2)))) (fun above =>
  rbind (rbind (table_getitem "Prot" mcq_dwarfs)
               (fun col => column_le col (Finite 7))) (fun upto =>
  np_logical_and above upto)).

(** [np.logical_and(mcq_dwarfs["Prot"] > 7, mcq_dwarfs["Prot"] < 11)] *)
Definition marginal_period_mask (mcq_dwarfs : Table) : result (list bool) :=
  rbind (rbind (table_getitem "Prot" mcq_dwarfs)
               (fun col => column_gt col (Finite 7))) (fun above =>
  rbind (rbind (table_getitem "Prot" mcq_dwarfs)
               (fun col => column_lt col (Finite 11))) (fun below =>
  np_logical_and above below)).

Definition write_rapid_rotator_tables (HOME_DIR : Path) (env : Collaborators) : M unit :=
  let mcq := mcquillan_corrected_splitter env in
  let mcq_dwarfs := mcq ["Dwarfs"; "Right Statistics Teff"] in
  mask <- lift (rapid_period_mask mcq_dwarfs) ;;
  mcq_rapid_dwarfs <- lift (table_mask mcq_dwarfs mask) ;;
  let apo := read_dr14_allStar env in
  let rapid_table :=
    join_by_2MASS_key env mcq_rapid_dwarfs apo "tm_designation" "APOGEE_ID" "left" in
  rapid_table_abridged <- lift (table_getitem_cols abridged_cols rapid_table) ;;
  rapid_table_abridged <- lift (table_sort "kepid" rapid_table_abridged) ;;
  let latex_length := 5%nat in
  let latex_table := table_head latex_length rapid_table_abridged in
  let latexdict := mkLatexDict "llcccccc" rapid_caption rapid_tablefoot latex_units in
  table_write latex_table (path_str (TABLE_PATH HOME_DIR // "table1.tex"))
              "ascii.aastex" latex_colnames true latex_colformats [] (Some latexdict) ;;;
  let rapid_table_abridged := set_comments table_comments rapid_table_abridged in
  table_write rapid_table_abridged (path_str (TABLE_PATH HOME_DIR // "table1.txt"))
              "ascii.fixed_width" ascii_colnames true ascii_colformats badformat None.

Definition write_marginal_rotator_tables (HOME_DIR : Path) (env : Collaborators) : M unit :=
  let mcq := mcquillan_corrected_splitter env in
  let mcq_dwarfs := mcq ["Dwarfs"; "Right Statistics Teff"] in
  mask <- lift (marginal_period_mask mcq_dwarfs) ;;
  mcq_rapid_dwarfs <- lift (table_mask mcq_dwarfs mask) ;;
  let apo := read_dr14_allStar env in
  let rapid_table :=
    join_by_2MASS_key env mcq_rapid_dwarfs apo "tm_designation" "APOGEE_ID" "left" in
  rapid_table_abridged <- lift (table_getitem_cols abridged_cols rapid_table) ;;
  rapid_table_abridged <- lift (table_sort "kepid" rapid_table_abridged) ;;
  let latex_length := 5%nat in
  let latex_table := table_head latex_length rapid_table_abridged in
  let latexdict := mkLatexDict "llcccccc" marginal_caption marginal_tablefoot latex_units in
  table_write latex_table (path_str (TABLE_PATH HOME_DIR // "table2.tex"))
              "ascii.aastex" latex_colnames true latex_colformats [] (Some latexdict) ;;;
  let rapid_table_abridged := set_comments table_comments rapid_table_abridged in
  table_write rapid_table_abridged (path_str (TABLE_PATH HOME_DIR // "table2.txt"))
              "ascii.fixed_width" ascii_colnames true ascii_colformats badformat None.

(** ** numpy arrays and Python sequences *)

(** [np.zeros(n)] *)
Definition np_zeros (n : Z) : result (list fval) :=
  if n <? 0 then Raise (ValueError "negative dimensions are not allowed")
  else Ok (replicate (Z.to_nat n) (Finite 0)).

(** [range(lo, hi)] *)
Definition py_range (lo hi : Z) : list Z := seqZ lo (hi - lo).

(** Slice bounds: a negative bound counts from the end, and both are
    clamped to the sequence. *)
Definition slice_bound (len i : Z) : Z :=
  if i <? 0 then Z.max 0 (i + len) else Z.min i len.

(** [l[start:stop]] *)
Definition py_slice {A} (l : list A) (start stop : Z) : list A :=
  let len := Z.of_nat (length l) in
  let s := slice_bound len start in
  let e := slice_bound len stop in
  take (Z.to_nat (e - s)) (drop (Z.to_nat s) l).

(** [arr[i] = v] *)
Definition array_setitem (arr : list fval) (i : Z) (v : fval) : result (list fval) :=
  let len := Z.of_nat (length arr) in
  let j := if i <? 0 then i + len else i in
  if (0 <=? j) && (j <? len) then Ok (<[Z.to_nat j := v]> arr)
  else Raise (IndexError "index is out of bounds").

(** ** [running_percentile]

    [np_mean] and [np_percentile] are numpy's; the latter may raise. *)

Definition running_percentile_step
    (np_mean : list fval -> fval) (np_percentile : list fval -> fval -> result fval)
    (xvals : list fval) (percentile : fval)
    (acc : list fval * list fval) (ix : Z * Z) : result (list fval * list fval) :=
  let '(median_xs, median_ys) := acc in
  let '(start_index, end_index) := ix in
  rbind (array_setitem median_xs start_index
           (np_mean (py_slice xvals start_index end_index)))
    (fun median_xs =>
  rbind (np_percentile (py_slice xvals start_index end_index) percentile)
    (fun p =>
  rbind (array_setitem median_ys start_index p)
    (fun median_ys => Ok (median_xs, median_ys)))).

Fixpoint result_fold {A B} (f : A -> B -> result A) (l : list B) (a : A) : result A :=
  match l with
  | [] => Ok a
  | b :: l' => rbind (f a b) (result_fold f l')
  end.

Definition running_percentile
    (np_mean : list fval -> fval) (np_percentile : list fval -> fval -> result fval)
    (xvals yvals : list fval) (size : Z) (percentile : fval)
    : result (list fval * list fval) :=
  let len_x := Z.of_nat (length xvals) in
  let len_y := Z.of_nat (length yvals) in
  rbind (np_zeros (len_x - size)) (fun median_xs =>
  rbind (np_zeros (len_y - size)) (fun median_ys =>
  result_fold (running_percentile_step np_mean np_percentile xvals percentile)
              (zip (py_range 0 (len_x - size)) (py_range size len_x))
              (median_xs, median_ys))).

(** ** The scatter-simulation loop of [binary_fit]

    One pass of the loop body up to and including the call of the fitter
    is the collaborator [simulate]: it draws the temperature errors,
    evaluates the model magnitudes, bins them and fits the two Gaussians.
    What the rest of the body reads from it is [fitter.fit_info], the
    scatter of the single stars and the fitted width. *)

Record FitRun : Type := mkFitRun {
  exit_mode : Z;
  message : string;
  single_star_std : fval;
  stddev_0 : fval
}.

(** [np.random.seed(n)] *)
Definition np_random_seed (n : Z) : M unit :=
  fun w => (mkWorld (figures w) (files w) (stdout w) n, Ok tt).

Definition scatter_iteration (simulate : Z -> M FitRun) (sig : Z)
    (scatter : list fval * list fval) : M (list fval * list fval) :=
  let '(real_scatter, measured_scatter) := scatter in
  run <- simulate sig ;;
  print (pretty (exit_mode run)) ;;;
  if negb (exit_mode run =? 0) then
    print (message run) ;;;
    ret (real_scatter, measured_scatter)
  else
    ret (real_scatter ++ [single_star_std run], measured_scatter ++ [stddev_0 run]).

Arguments scatter_iteration : simpl never.

Fixpoint scatter_loop (simulate : Z -> M FitRun) (sigmas : list Z)
    (scatter : list fval * list fval) : M (list fval * list fval) :=
  match sigmas with
  | [] => ret scatter
  | sig :: rest =>
      scatter <- scatter_iteration simulate sig scatter ;;
      scatter_loop simulate rest scatter
  end.

Definition binary_fit_scatter (simulate : Z -> M FitRun) : M (list fval * list fval) :=
  np_random_seed 8302018 ;;;
  let sigmas := py_range 50 150 in
  scatter_loop simulate sigmas ([], []).

(** ** Command-line entry point *)

(** The result of [parser.parse_args()]. *)
Record Namespace : Type := mkNamespace {
  figs : list string;
  list_figs : bool
}.

Inductive figure_fn : Type :=
| Bruntt_vsini_comparison
| Pleiades_vsini_comparison
| asteroseismic_sample_MK
| cool_dwarf_mk
| asteroseismic_rotation_analysis
| cool_dwarf_rotation_analysis
| plot_rr_fractions
| plot_binarity_diagram.

#[global] Instance figure_fn_eq_dec : EqDecision figure_fn.
Proof. solve_decision. Defined.

(** The [@write_plot(..)] line above each registered function;
    [plot_binarity_diagram] has none. *)
Definition decorator (f : figure_fn) : option string :=
  match f with
  | Bruntt_vsini_comparison => Some "Bruntt_comp"
  | Pleiades_vsini_comparison => Some "Pleiades_comp"
  | asteroseismic_sample_MK => Some "astero"
  | cool_dwarf_mk => Some "cool_mk_sample"
  | asteroseismic_rotation_analysis => Some "astero_rot"
  | cool_dwarf_rotation_analysis => Some "cool_rot"
  | plot_rr_fractions => Some "detection_fraction"
  | plot_binarity_diagram => None
  end.

(** Calling a registered function: its body, under the decorator if it
    has one. *)
Definition call (HOME_DIR : Path) (body : figure_fn -> M value) (f : figure_fn) : M value :=
  match decorator f with
  | Some filename => write_plot filename PLOT_SUFFIX (FIGURE_PATH HOME_DIR) (body f)
  | None => body f
  end.

(** A dict keeps its insertion order. *)
Definition figlist : list (string * figure_fn) :=
  [("Bruntt", Bruntt_vsini_comparison);
   ("SH", Pleiades_vsini_comparison);
   ("asterosamp", asteroseismic_sample_MK);
   ("coolsamp", cool_dwarf_mk);
   ("asterorot", asteroseismic_rotation_analysis);
   ("coolrot", cool_dwarf_rotation_analysis);
   ("rrfracs", plot_rr_fractions);
   ("binarity", plot_binarity_diagram)].

Definition dict_keys {V} (d : list (string * V)) : list string := map fst d.
Definition dict_values {V} (d : list (string * V)) : list V := map snd d.

(** [d[key]] *)
Fixpoint dict_getitem {V} (d : list (string * V)) (key : string) : result V :=
  match d with
  | [] => Raise (KeyError key)
  | (k, v) :: d' => if String.eqb k key then Ok v else dict_getitem d' key
  end.

(** [str(d.keys())] *)
Definition dict_keys_str (keys : list string) : string :=
  "dict_keys([" +:+ String.concat ", " (map (fun k => "'" +:+ k +:+ "'") keys) +:+ "])".

(** [for fig in fs: fig()] *)
Fixpoint call_each (run : figure_fn -> M value) (fs : list figure_fn) : M unit :=
  match fs with
  | [] => ret tt
  | fig :: rest => run fig ;;; call_each run rest
  end.

(** [for figname in genfigs: ..] *)
Fixpoint figure_loop (run : figure_fn -> M value) (genfigs : list string) : M unit :=
  match genfigs with
  | [] => ret tt
  | figname :: rest =>
      if String.eqb figname "all" then
        call_each run (dict_values figlist)
      else
        fig <- lift (dict_getitem figlist figname) ;;
        run fig ;;;
        figure_loop run rest
  end.

Definition main (HOME_DIR : Path) (body : figure_fn -> M value) (args : Namespace) : M unit :=
  let genfigs := figs args in
  (if bool_decide (genfigs = []) then print (dict_keys_str (dict_keys figlist)) else ret tt) ;;;
  figure_loop (call HOME_DIR body) genfigs.

(** The functions a list of figure names stands for. *)
Definition named_functions (names : list string) : list figure_fn :=
  flat_map (fun n => match dict_getitem figlist n with
                     | Ok f => [f]
                     | Raise _ => []
                     end) names.

(** *** The command line

    [parser.parse_args()] for the parser the script builds: one positional
    [figs] with [nargs="*"] and the flag [--list-figs].  argparse hands the
    positional the first unbroken run of tokens that are not options; a
    later token that is not an option is left over, and a left-over token
    ends the program through [parser.error] with exit status 2.

    Only command lines made of [--list-figs] and of tokens that do not
    start with a dash are described; for any other ([-h], an abbreviated
    or unknown option, [--], a negative number) the result is [None]. *)
Definition list_figs_token (t : string) : bool := String.eqb t "--list-figs".

Definition dash_token (t : string) : bool := String.prefix "-" t.

(** The longest prefix of [l] whose elements pass [p], and the rest. *)
Fixpoint span {A} (p : A -> bool) (l : list A) : list A * list A :=
  match l with
  | [] => ([], [])
  | x :: l' =>
      if p x then let '(run, rest) := span p l' in (x :: run, rest)
      else ([], l)
  end.

Definition parse_args (argv : list string) : option (result Namespace) :=
  if forallb (fun t => list_figs_token t || negb (dash_token t)) argv then
    let after_flags := (span list_figs_token argv).2 in
    let '(names, rest) := span (fun t => negb (list_figs_token t)) after_flags in
    if forallb list_figs_token rest
    then Some (Ok (mkNamespace names (existsb list_figs_token argv)))
    else Some (Raise (SystemExit 2))
  else None.

(** The [__main__] block from [parser.parse_args()] on; [argv] is
    [sys.argv[1:]].  A command line that argparse rejects ends the run
    before anything else is done. *)
Definition script (HOME_DIR : Path) (body : figure_fn -> M value) (argv : list string)
    (w : World) : option (World * result unit) :=
  match parse_args argv with
  | Some parsed => Some ((args <- lift parsed ;; main HOME_DIR body args) w)
  | None => None
  end.

(** The calls [call_each] makes on a list of functions: those it starts
    (up to and including the first that raises) and those that return. *)
Fixpoint calls_started (run : figure_fn -> M value) (fs : list figure_fn) (w : World)
    : list figure_fn :=
  match fs with
  | [] => []
  | fig :: rest =>
      match run fig w with
      | (w1, Ok _) => fig :: calls_started run rest w1
      | (_, Raise _) => [fig]
      end
  end.

Fixpoint calls_returned (run : figure_fn -> M value) (fs : list figure_fn) (w : World)
    : list figure_fn :=
  match fs with
  | [] => []
  | fig :: rest =>
      match run fig w with
      | (w1, Ok _) => fig :: calls_returned run rest w1
      | (_, Raise _) => []
      end
  end.

(** A file name without a slash. *)
Fixpoint plain_name (s : string) : bool :=
  match s with
  | EmptyString => true
  | String a s' => negb (Ascii.eqb a "/") && plain_name s'
  end.

(** The figure pyplot saves: the current one, or an empty one when none
    is open. *)
Definition current_figure (w : World) : Figure :=
  match figures w with
  | fig :: _ => fig
  | [] => []
  end.

(** ** Sample inputs *)

Definition sample_home : Path := path_of_string "/home/user".

Definition sample_world : World := mkWorld [["stale axes"]] ∅ [] 0.

(** A figure body that draws one line on a fresh figure. *)
Definition sample_body (f : figure_fn) : M value :=
  fun w => (mkWorld (["line"] :: figures w) (files w) (stdout w) (rng w), Ok (VInt 1)).

(** The Python name of a registered function. *)
Definition figure_name (f : figure_fn) : string :=
  match f with
  | Bruntt_vsini_comparison => "Bruntt_vsini_comparison"
  | Pleiades_vsini_comparison => "Pleiades_vsini_comparison"
  | asteroseismic_sample_MK => "asteroseismic_sample_MK"
  | cool_dwarf_mk => "cool_dwarf_mk"
  | asteroseismic_rotation_analysis => "asteroseismic_rotation_analysis"
  | cool_dwarf_rotation_analysis => "cool_dwarf_rotation_analysis"
  | plot_rr_fractions => "plot_rr_fractions"
  | plot_binarity_diagram => "plot_binarity_diagram"
  end.

(** A figure body that only prints the name of its function. *)
Definition tracing_body (f : figure_fn) : M value :=
  fun w => (mkWorld (figures w) (files w) (stdout w ++ [figure_name f]) (rng w), Ok VMasked).

(** Figure bodies that fail the way the registered functions of the
    script do: six of them call a splitter the script never defines,
    [asteroseismic_sample_MK] and [cool_dwarf_mk] after opening a figure,
    the others at their first statement. *)
Definition unbound_body (f : figure_fn) : M value :=
  let draw : M unit :=
    fun w => (mkWorld (["axes"] :: figures w) (files w) (stdout w) (rng w), Ok tt) in
  match f with
  | Bruntt_vsini_comparison | Pleiades_vsini_comparison => draw ;;; ret VMasked
  | asteroseismic_sample_MK => draw ;;; raise (NameError "asteroseismic_data_splitter")
  | cool_dwarf_mk => draw ;;; raise (NameError "cool_data_splitter")
  | asteroseismic_rotation_analysis => raise (NameError "asteroseismic_data_splitter")
  | cool_dwarf_rotation_analysis | plot_rr_fractions | plot_binarity_diagram =>
      raise (NameError "cool_data_splitter")
  end.

(** A figure body that fails while loading its catalog. *)
Definition failing_body : M value := raise (Exception "catalog not found").

(** Stand-ins for [np.mean] and [np.percentile] on small exact data: the
    mean of finite values, and the lowest value of a non-empty window. *)
Definition sample_np_mean (l : list fval) : fval :=
  match result_map (fun x => match x with
                             | Finite q => Ok q
                             | _ => Raise (ValueError "not finite")
                             end) l with
  | Ok (q :: qs) =>
      Finite (Qred (Qdiv (fold_right Qplus 0%Q (q :: qs))
                         (inject_Z (Z.of_nat (length (q :: qs))))))
  | _ => NaN
  end.

Definition sample_np_percentile (l : list fval) (percentile : fval) : result fval :=
  match l with
  | [] => Raise (IndexError "cannot do a non-empty take from an empty axes")
  | x :: l' => Ok (fold_right (fun a b => if float_lt a b then a else b) x l')
  end.

(** A fitter that fails to converge on every third width. *)
Definition sample_simulate (sig : Z) : M FitRun :=
  fun w =>
    (mkWorld (figures w) (files w) (stdout w) (rng w + 1),
     Ok (mkFitRun (if sig mod 3 =? 0 then 8 else 0)
                  "Positive directional derivative for linesearch"
                  (Finite (sig # 1000)) (Finite ((sig + 2) # 1000)))).

(** ** Reading the table writers *)

#[global] Instance Q_eq_dec : EqDecision Q.
Proof. solve_decision. Defined.
#[global] Instance fval_eq_dec : EqDecision fval.
Proof. solve_decision. Defined.
#[global] Instance value_eq_dec : EqDecision value.
Proof. solve_decision. Defined.

(** The rotation period of a row, when its [Prot] cell is a number. *)
Definition row_period (r : gmap string value) : option fval :=
  r !! "Prot" ≫= value_as_float.

(** The period as a float; NaN when the cell is not a number. *)
Definition period_of (r : gmap string value) : fval := default NaN (row_period r).

Definition rapid_period_cut (p : fval) : bool :=
  float_gt p (Finite (3 # 2)) && float_le p (Finite 7).

Definition marginal_period_cut (p : fval) : bool :=
  float_gt p (Finite 7) && float_lt p (Finite 11).

Definition selects (cut : fval -> bool) (r : gmap string value) : bool :=
  match row_period r with
  | Some p => cut p
  | None => false
  end.

(** A star whose period lies in (1.5, 7]. *)
Definition rapid_rotator (r : gmap string value) : Prop :=
  exists q : Q, row_period r = Some (Finite q) /\ (3 # 2 < q)%Q /\ (q <= 7)%Q.

(** The columns of the dwarf sample that go into the table. *)
Definition kept_columns (t : Table) : list string :=
  filter (fun c => c ∈ abridged_cols) (colnames t).

(** The rows of a table that a cut on the period keeps. *)
Definition select_rows (cut : fval -> bool) (t : Table) : Table :=
  mkTable (colnames t) (filter (fun r => Is_true (selects cut r)) (rows t))
          (meta_comments t).

(** [r'] carries the cells of [r] in the columns [cols]. *)
Definition agree_on (cols : list string) (r r' : gmap string value) : Prop :=
  Forall (fun c => r' !! c = r !! c) cols.

(** What a left join promises: every row of the result carries a row of
    the left table in the left table's columns, and every row of the left
    table is carried by a row of the result. *)
Definition left_join_of (left joined : Table) : Prop :=
  Forall (fun r' => Exists (fun r => agree_on (colnames left) r r') (rows left))
         (rows joined)
  /\ Forall (fun r => Exists (fun r' => agree_on (colnames left) r r') (rows joined))
            (rows left).

#[global] Instance agree_on_dec cols r r' : Decision (agree_on cols r r').
Proof. unfold agree_on. apply _. Defined.
#[global] Instance left_join_of_dec l j : Decision (left_join_of l j).
Proof. unfold left_join_of. apply _. Defined.

(** The table both files are written from: select, join, project, sort. *)
Definition rotator_table (period_mask : Table -> result (list bool))
    (env : Collaborators) : result Table :=
  let mcq_dwarfs := mcquillan_corrected_splitter env ["Dwarfs"; "Right Statistics Teff"] in
  rbind (period_mask mcq_dwarfs) (fun mask =>
  rbind (table_mask mcq_dwarfs mask) (fun selected =>
  let joined := join_by_2MASS_key env selected (read_dr14_allStar env)
                  "tm_designation" "APOGEE_ID" "left" in
  rbind (table_getitem_cols abridged_cols joined) (table_sort "kepid"))).

Definition latex_file (caption tablefoot : string) (t : Table) : FileContent :=
  TableFile (mkWritten "ascii.aastex" latex_colnames (table_cells (table_head 5 t))
               (meta_comments t) latex_colformats []
               (Some (mkLatexDict "llcccccc" caption tablefoot latex_units))).

Definition ascii_file (t : Table) : FileContent :=
  TableFile (mkWritten "ascii.fixed_width" ascii_colnames (table_cells t)
               table_comments ascii_colformats badformat None).

Definition set_files (fs : gmap string FileContent) (w : World) : World :=
  mkWorld (figures w) fs (stdout w) (rng w).

(** A small catalog: five stars, of which three rotate rapidly, one
    marginally and one slowly; two of them were observed by APOGEE. *)
Definition sample_star (kepid : Z) (tm : string) (teff : Z) (prot : Q) : gmap string value :=
  <["kepid" := VInt kepid]> (<["tm_designation" := VStr tm]> (<["SDSS-Teff" := VInt teff]>
  (<["kmag" := VFloat (Finite (23 # 2))]> (<["M_K" := VFloat (Finite (9 # 2))]>
  (<["Corrected K Excess" := VFloat (Finite (-1 # 10))]>
  (<["Prot" := VFloat (Finite prot)]> ∅)))))).

Definition sample_mcq_dwarfs : Table :=
  mkTable ["kepid"; "tm_designation"; "SDSS-Teff"; "kmag"; "M_K"; "Corrected K Excess"; "Prot"]
    [sample_star 7500 "2M19000007" 4800 (5 # 2);
     sample_star 1200 "2M19000001" 5100 7;
     sample_star 3300 "2M19000003" 4300 (3 # 2);
     sample_star 2100 "2M19000002" 4500 (17 # 2);
     sample_star 900 "2M19000000" 4100 (61 # 10)]
    [].

Definition sample_apo : Table :=
  mkTable ["APOGEE_ID"; "FE_H"]
    [<["APOGEE_ID" := VStr "2M19000001"]> (<["FE_H" := VFloat (Finite (-1 # 4))]> ∅);
     <["APOGEE_ID" := VStr "2M19000002"]> (<["FE_H" := VFloat (Finite (1 # 10))]> ∅)]
    [].

(** A plain left join on equal keys, in the order of the left table; the
    cells of an unmatched row are masked in the right table's columns. *)
Definition sample_join (left right : Table) (left_key right_key join_type : string) : Table :=
  mkTable (colnames left ++ colnames right)
    (flat_map (fun l : gmap string value =>
       match filter (fun r : gmap string value => r !! right_key = l !! left_key)
                    (rows right) with
       | [] => [l ∪ list_to_map ((fun c => (c, VMasked)) <$> colnames right)]
       | matches => (fun r => l ∪ r) <$> matches
       end) (rows left))
    (meta_comments left).

Definition sample_env : Collaborators :=
  mkCollaborators (fun _ => sample_mcq_dwarfs) sample_apo sample_join.

(** ** Reading the scatter loop

    [converged] is the test the loop makes on [fit_info]; [loop_runs]
    lists the fits the loop obtains from [simulate], pass after pass, up
    to the first call of [simulate] that raises. *)

Definition converged (run : FitRun) : bool := exit_mode run =? 0.

Definition add_stdout (lines : list string) (w : World) : World :=
  mkWorld (figures w) (files w) (stdout w ++ lines) (rng w).

Fixpoint loop_runs (simulate : Z -> M FitRun) (sigmas : list Z) (w : World) : list FitRun :=
  match sigmas with
  | [] => []
  | sig :: rest =>
      match simulate sig w with
      | (_, Ok run) =>
          run :: loop_runs simulate rest (scatter_iteration simulate sig ([], []) w).1
      | (_, Raise _) => []
      end
  end.

(** The file names under which the script saves figures: the arguments of
    the [@write_plot] lines, in the order of the source, and the default
    destination of [targeting_figure]. *)
Definition saved_figure_names : list string :=
  ["f2"; "f1"; "full_kdiff"; "f7"; "f11"; "f5"; "f6"; "f9"; "ms_width"; "f10"; "f3";
   "f4"; "f8"; "f19"; "f13"; "f14"; "f15"; "f12"; "f17"; "distance_dist"; "f16"; "f20";
   "f18"; "tsb_analysis"; "Bruntt_comp"; "Pleiades_comp"; "astero_rot"; "turnoff";
   "binarycut"; "astero"; "cool_mk_sample"; "teff_vsini"; "teff_radius"; "teff_period";
   "detection_fraction"; "cool_rot"; "binary_cut"; "binarity"; "mcq_binarity";
   "targeting"].

(** The file a registered function saves, if it is decorated. *)
Definition figure_file (HOME_DIR : Path) (f : figure_fn) : option string :=
  (fun filename => build_filepath (FIGURE_PATH HOME_DIR) filename PLOT_SUFFIX) <$> decorator f.

(** A figure body that draws nothing. *)
Definition idle_body : M value := print "nothing to plot" ;;; ret VMasked.

(** Catalogs without a rapid rotator. *)
Definition sample_env_slow : Collaborators :=
  mkCollaborators
    (fun _ => mkTable (colnames sample_mcq_dwarfs)
                [sample_star 3300 "2M19000003" 4300 (3 # 2);
                 sample_star 2100 "2M19000002" 4500 (17 # 2)] [])
    sample_apo sample_join.

(** A world in which the four table files are left over from an earlier
    run on other catalogs. *)
Definition sample_stale_world : World :=
  let old := TableFile (mkWritten "ascii.fixed_width" ["KIC"] [[VInt 1]] [] [] [] None) in
  mkWorld []
    (<[path_str (TABLE_PATH sample_home // "table1.tex") := old]>
       (<[path_str (TABLE_PATH sample_home // "table1.txt") := old]>
          (<[path_str (TABLE_PATH sample_home // "table2.tex") := old]>
             (<[path_str (TABLE_PATH sample_home // "table2.txt") := old]> ∅))))
    [] 0.

(** Catalogs whose APOGEE table has no [FE_H] column. *)
Definition sample_env_without_feh : Collaborators :=
  mkCollaborators (fun _ => sample_mcq_dwarfs)
    (mkTable ["APOGEE_ID"] [<["APOGEE_ID" := VStr "2M19000001"]> ∅] [])
    sample_join.

(** Catalogs whose dwarf sample has no [Prot] column. *)
Definition sample_env_without_period : Collaborators :=
  mkCollaborators (fun _ => sample_apo) sample_apo sample_join.

(** A star whose period lies in (7, 11). *)
Definition marginal_rotator (r : gmap string value) : Prop :=
  exists q : Q, row_period r = Some (Finite q) /\ (7 < q)%Q /\ (q < 11)%Q.

(** ** Reading [running_percentile]

    The window of [size] samples that starts at index [i]. *)
Definition window (xvals : list fval) (size : Z) (i : nat) : list fval :=
  take (Z.to_nat size) (drop i xvals).

(** * Properties *)

(** ** The decorator *)

Lemma bind_ok {A B} (m : M A) (k : A -> M B) w w1 a :
  m w = (w1, Ok a) -> bind m k w = k a w1.
Proof. intros H. unfold bind. by rewrite H. Qed.

Lemma bind_raise {A B} (m : M A) (k : A -> M B) w w1 e :
  m w = (w1, Raise e) -> bind m k w = (w1, Raise e).
Proof. intros H. unfold bind. by rewrite H. Qed.

Lemma bind_assoc {A B C} (m : M A) (k : A -> M B) (h : B -> M C) w :
  bind (bind m k) h w = bind m (fun a => bind (k a) h) w.
Proof.
  unfold bind. destruct (m w) as [w1 [a|e]]; [|done].
  by destruct (k a w1) as [w2 [b|e]].
Qed.

Lemma bind_ext {A B} (m : M A) (k k' : A -> M B) w :
  (forall a w1, k a w1 = k' a w1) -> bind m k w = bind m k' w.
Proof. intros H. unfold bind. by destruct (m w) as [w1 [a|e]]. Qed.

Lemma plt_savefig_files path w :
  files (plt_savefig path w).1 = <[path := PlotFile (current_figure w)]> (files w).
Proof. unfold plt_savefig, current_figure. by destruct (figures w). Qed.

(** C1, as the claim states it, fails when the wrapped function raises:
    the wrapper then saves no file and has no value to return. *)
Lemma write_plot_raise_saves_nothing :
  let r := write_plot "f2" PLOT_SUFFIX (FIGURE_PATH sample_home) failing_body sample_world in
  files r.1 !! build_filepath (FIGURE_PATH sample_home) "f2" PLOT_SUFFIX = None
  /\ files r.1 = ∅
  /\ r.2 = Raise (Exception "catalog not found").
Proof. vm_compute. done. Qed.

(** C1 (amended): an invocation of a function wrapped by [write_plot]
    first closes all open figures and then calls the wrapped function on
    the world so reached.  When that call returns a value, the wrapper
    saves the current figure at [build_filepath toplevel filename suffix],
    changes no other file, and returns the value unchanged; when the call
    raises, the exception propagates and the wrapper saves nothing. *)
Theorem write_plot_spec {A} (filename suffix : string) (toplevel : Path) (f : M A) (w : World) :
  let w0 := (plt_close_all w).1 in
  let path := build_filepath toplevel filename suffix in
  figures w0 = [] /\ files w0 = files w /\
  match f w0 with
  | (w1, Ok a) =>
      exists w2,
        write_plot filename suffix toplevel f w = (w2, Ok a)
        /\ w2 = (plt_savefig path w1).1
        /\ files w2 !! path = Some (PlotFile (current_figure w1))
        /\ (forall p, p <> path -> files w2 !! p = files w1 !! p)
  | (w1, Raise e) =>
      write_plot filename suffix toplevel f w = (w1, Raise e)
  end.
Proof.
  cbn zeta. split; [done|]. split; [done|].
  unfold write_plot, bind. cbn [plt_close_all fst].
  destruct (f _) as [w1 [a|e]]; [|done].
  destruct (plt_savefig _ w1) as [w2 r] eqn:Hsave.
  assert (Hw2 : w2 = (plt_savefig (build_filepath toplevel filename suffix) w1).1)
    by (by rewrite Hsave).
  assert (Hr : r = Ok tt) by (unfold plt_savefig in Hsave; congruence).
  subst r. exists w2. split; [done|]. split; [done|].
  rewrite Hw2, plt_savefig_files. split.
  - apply lookup_insert_eq.
  - intros p Hp. by apply lookup_insert_ne.
Qed.

Example write_plot_saves_f2 :
  let r := write_plot "f2" PLOT_SUFFIX (FIGURE_PATH sample_home)
             (sample_body Bruntt_vsini_comparison) sample_world in
  map_to_list (files r.1) = [("/home/user/papers/rotletter18/fig/f2.pdf", PlotFile ["line"])]
  /\ figures r.1 = [["line"]]
  /\ r.2 = Ok (VInt 1).
Proof. vm_compute. done. Qed.

(** *** The path of the saved figure *)

Lemma string_app_assoc (a b c : string) : (a +:+ b) +:+ c = a +:+ (b +:+ c).
Proof.
  induction a as [|x a IH]; [done|].
  change (String x ((a +:+ b) +:+ c) = String x (a +:+ (b +:+ c))). by f_equal.
Qed.

Lemma plain_name_app (a b : string) :
  plain_name a = true -> plain_name b = true -> plain_name (a +:+ b) = true.
Proof.
  intros Ha Hb. induction a as [|x a IH]; [done|].
  change (plain_name (String x (a +:+ b)) = true).
  cbn in *. apply andb_true_iff in Ha as [Hx Ha]. by rewrite Hx, IH.
Qed.

Lemma split_on_plain (s : string) :
  plain_name s = true -> split_on "/" s = [s].
Proof.
  induction s as [|x s IH]; [done|].
  cbn. intros [Hx Hs]%andb_true_iff.
  apply negb_true_iff in Hx. rewrite Hx. by rewrite IH.
Qed.

Lemma parse_root_plain (s : string) : plain_name s = true -> parse_root s = "".
Proof.
  destruct s as [|x s]; [done|].
  cbn. intros [Hx _]%andb_true_iff. apply negb_true_iff in Hx.
  unfold parse_root.
  change (String.prefix "///" (String x s))
    with (if ascii_dec "/" x then String.prefix "//" s else false).
  change (String.prefix "//" (String x s))
    with (if ascii_dec "/" x then String.prefix "/" s else false).
  change (String.prefix "/" (String x s))
    with (if ascii_dec "/" x then String.prefix "" s else false).
  destruct (ascii_dec "/" x) as [<-|_]; [by rewrite Ascii.eqb_refl in Hx | done].
Qed.

Lemma concat_snoc (sep : string) (l : list string) (x : string) :
  l <> [] -> String.concat sep (l ++ [x]) = String.concat sep l +:+ sep +:+ x.
Proof.
  induction l as [|a l IH]; [done|]. intros _.
  destruct l as [|b l]; [done|].
  change (String.concat sep ((a :: b :: l) ++ [x]))
    with (a +:+ sep +:+ String.concat sep ((b :: l) ++ [x])).
  rewrite IH by done.
  change (String.concat sep (a :: b :: l)) with (a +:+ sep +:+ String.concat sep (b :: l)).
  by rewrite !string_app_assoc.
Qed.

(** For a file name and a suffix without slashes, below a directory that
    is not the bare root, the path is the directory, a slash, and
    [filename.suffix]. *)
Lemma build_filepath_plain (toplevel : Path) (filename suffix : string) :
  parts toplevel <> [] ->
  filename <> "" ->
  plain_name filename = true ->
  plain_name suffix = true ->
  build_filepath toplevel filename suffix
  = path_str toplevel +:+ "/" +:+ filename +:+ "." +:+ suffix.
Proof.
  intros Hparts Hne Hfile Hsuffix. unfold build_filepath.
  change (String.concat "." [filename; suffix]) with (filename +:+ "." +:+ suffix).
  set (name := filename +:+ "." +:+ suffix).
  assert (Hplain : plain_name name = true)
    by (apply plain_name_app; [done | by apply (plain_name_app ".")]).
  assert (Hcomp : path_component name = true).
  { unfold name, path_component. destruct filename as [|x f]; [done|].
    change (String.eqb (String x f +:+ "." +:+ suffix) "") with false.
    change (String.eqb (String x f +:+ "." +:+ suffix) ".")
      with (if Ascii.eqb x "." then String.eqb (f +:+ "." +:+ suffix) "" else false).
    assert (Hrest : String.eqb (f +:+ "." +:+ suffix) "" = false) by (by destruct f).
    rewrite Hrest. by destruct (Ascii.eqb x "."). }
  unfold truediv, path_of_string.
  rewrite parse_root_plain, split_on_plain by done. cbn [root parts String.eqb].
  rewrite filter_cons, filter_nil, Hcomp.
  destruct (decide (Is_true true)) as [_|[]]; [|done].
  unfold path_str. cbn [parts root].
  destruct (parts toplevel) as [|a l] eqn:Hl; [done|].
  destruct ((a :: l) ++ [name]) as [|b l'] eqn:Happ; [done|].
  rewrite <- Happ, concat_snoc by done.
  by rewrite !string_app_assoc.
Qed.

Example build_filepath_f2 :
  build_filepath (FIGURE_PATH sample_home) "f2" PLOT_SUFFIX
  = "/home/user/papers/rotletter18/fig/f2.pdf".
Proof. reflexivity. Qed.

(** ** The entry point *)

Lemma figlist_key_lookup (t : string) :
  t ∈ dict_keys figlist ->
  String.eqb t "all" = false /\ exists f, dict_getitem figlist t = Ok f.
Proof.
  unfold dict_keys, figlist. cbn [map fst].
  rewrite !elem_of_cons, elem_of_nil.
  intros H.
  repeat (destruct H as [->|H]; [split; [reflexivity | eexists; reflexivity] |]).
  done.
Qed.

Lemma dict_getitem_missing {V} (d : list (string * V)) (key : string) :
  key ∉ dict_keys d -> dict_getitem d key = Raise (KeyError key).
Proof.
  induction d as [|[k v] d IH]; [done|].
  cbn. rewrite not_elem_of_cons. intros [Hne Hd].
  destruct (String.eqb_spec k key) as [->|_]; [done|]. by apply IH.
Qed.

Lemma call_each_app run (l1 l2 : list figure_fn) w :
  call_each run (l1 ++ l2) w = bind (call_each run l1) (fun _ => call_each run l2) w.
Proof.
  revert w. induction l1 as [|f l1 IH]; intros w; [done|].
  cbn [call_each app]. rewrite bind_assoc.
  apply bind_ext. intros _ w1. apply IH.
Qed.

(** Names that are keys of [figlist] are looked up and called one after
    the other; the loop then goes on with the rest of the list. *)
Lemma figure_loop_prefix run (pre rest : list string) w :
  Forall (fun t => t ∈ dict_keys figlist) pre ->
  figure_loop run (pre ++ rest) w
  = bind (call_each run (named_functions pre)) (fun _ => figure_loop run rest) w.
Proof.
  intros Hpre. revert w. induction Hpre as [|t pre Ht _ IH]; intros w; [done|].
  destruct (figlist_key_lookup t Ht) as [Hall [f Hf]].
  cbn [app figure_loop]. rewrite Hall.
  unfold named_functions. cbn [flat_map]. rewrite Hf.
  fold (named_functions pre). cbn [app call_each].
  rewrite bind_assoc. unfold lift, bind at 1.
  apply bind_ext. intros _ w1. apply IH.
Qed.

Lemma main_nonempty home body (genfigs : list string) flag w :
  genfigs <> [] ->
  main home body (mkNamespace genfigs flag) w = figure_loop (call home body) genfigs w.
Proof.
  intros Hne. unfold main. cbn [figs].
  rewrite bool_decide_eq_false_2 by done. done.
Qed.

(** C2, as the claim states it, fails when a token before ["all"] is not
    a registered name: the lookup raises and no figure function runs. *)
Lemma all_after_unknown_runs_nothing :
  main sample_home sample_body (mkNamespace ["nosuch"; "all"] false) sample_world
  = (sample_world, Raise (KeyError "nosuch")).
Proof. vm_compute. done. Qed.

Lemma calls_started_spec run (fs : list figure_fn) (w : World) :
  match call_each run fs w with
  | (_, Ok _) => calls_started run fs w = fs
  | (w1, Raise e) =>
      exists (before : list figure_fn) (f : figure_fn) (later : list figure_fn) (w0 : World),
        fs = before ++ f :: later
        /\ calls_started run fs w = before ++ [f]
        /\ call_each run before w = (w0, Ok tt)
        /\ run f w0 = (w1, Raise e)
  end.
Proof.
  revert w. induction fs as [|f fs IH]; intros w; [done|].
  cbn [call_each calls_started]. unfold bind at 1.
  destruct (run f w) as [w1 [a|e]] eqn:Hrun.
  - specialize (IH w1). destruct (call_each run fs w1) as [w2 [[]|e]].
    + by rewrite IH.
    + destruct IH as (before & g & later & w0 & -> & Hstarted & Hbefore & Hg).
      exists (f :: before), g, later, w0. rewrite Hstarted. split; [done|].
      split; [done|]. split; [|done].
      cbn [call_each]. by rewrite (bind_ok _ _ _ _ _ Hrun).
  - exists [], f, fs, w. by rewrite Hrun.
Qed.

(** C2 (amended): when every token before the first ["all"] is a key of
    [figlist], the entry point calls the functions those tokens name, in
    order, and then the registered functions in the dictionary's order
    Bruntt, SH, asterosamp, coolsamp, asterorot, coolrot, rrfracs,
    binarity, each call starting when the one before it has returned.
    When no call raises, every function of that list has been called, the
    eight registered ones once each in the pass; when a call raises, the
    run ends with that exception in the world the call left, and the
    functions after it are not called.  The tokens after ["all"] are not
    processed. *)
Theorem all_runs_every_figure home body (pre post : list string) (flag : bool) (w : World)
    (Hpre : Forall (fun t => t ∈ dict_keys figlist) pre) :
  let fs := named_functions pre ++
            [Bruntt_vsini_comparison; Pleiades_vsini_comparison; asteroseismic_sample_MK;
             cool_dwarf_mk; asteroseismic_rotation_analysis; cool_dwarf_rotation_analysis;
             plot_rr_fractions; plot_binarity_diagram] in
  main home body (mkNamespace (pre ++ "all" :: post) flag) w
  = call_each (call home body) fs w
  /\ match call_each (call home body) fs w with
     | (_, Ok _) => calls_started (call home body) fs w = fs
     | (w1, Raise e) =>
         exists (before : list figure_fn) (f : figure_fn) (later : list figure_fn)
                (w0 : World),
           fs = before ++ f :: later
           /\ calls_started (call home body) fs w = before ++ [f]
           /\ call_each (call home body) before w = (w0, Ok tt)
           /\ call home body f w0 = (w1, Raise e)
     end.
Proof.
  intros fs. split; [|apply calls_started_spec].
  rewrite main_nonempty by (by destruct pre).
  rewrite figure_loop_prefix by done.
  unfold fs. rewrite call_each_app. reflexivity.
Qed.

Lemma all_runs_every_figure_witness :
  let fs := [Pleiades_vsini_comparison; cool_dwarf_rotation_analysis;
             Bruntt_vsini_comparison; Pleiades_vsini_comparison; asteroseismic_sample_MK;
             cool_dwarf_mk; asteroseismic_rotation_analysis; cool_dwarf_rotation_analysis;
             plot_rr_fractions; plot_binarity_diagram] in
  main sample_home sample_body (mkNamespace (["SH"; "coolrot"] ++ "all" :: ["nosuch"]) true)
       sample_world
  = call_each (call sample_home sample_body) fs sample_world
  /\ calls_started (call sample_home sample_body) fs sample_world = fs.
Proof.
  apply (all_runs_every_figure sample_home sample_body ["SH"; "coolrot"] ["nosuch"] true
           sample_world).
  compute_done.
Defined.

(** With bodies that fail as those of the script do, the pass ends in the
    third registered function. *)
Example all_stops_at_first_raise :
  let run := call sample_home unbound_body in
  (main sample_home unbound_body (mkNamespace ["all"] false) sample_world).2
  = Raise (NameError "asteroseismic_data_splitter")
  /\ calls_started run (dict_values figlist) sample_world
     = [Bruntt_vsini_comparison; Pleiades_vsini_comparison; asteroseismic_sample_MK]
  /\ calls_returned run (dict_values figlist) sample_world
     = [Bruntt_vsini_comparison; Pleiades_vsini_comparison].
Proof. vm_compute. done. Qed.

Example all_call_order :
  stdout (main sample_home tracing_body
            (mkNamespace ["coolrot"; "all"; "SH"; "nosuch"] false) sample_world).1
  = ["cool_dwarf_rotation_analysis";
     "Bruntt_vsini_comparison"; "Pleiades_vsini_comparison"; "asteroseismic_sample_MK";
     "cool_dwarf_mk"; "asteroseismic_rotation_analysis"; "cool_dwarf_rotation_analysis";
     "plot_rr_fractions"; "plot_binarity_diagram"].
Proof. vm_compute. reflexivity. Qed.

(** C5: with no figure name on the command line the script prints the
    keys of [figlist] and calls no figure function: figures and files are
    left as they were, whatever the figure functions would do. *)
Theorem no_figs_prints_names home body (flag : bool) (w : World) :
  main home body (mkNamespace [] flag) w
  = (mkWorld (figures w) (files w)
       (stdout w ++
        ["dict_keys(['Bruntt', 'SH', 'asterosamp', 'coolsamp', 'asterorot', 'coolrot', 'rrfracs', 'binarity'])"])
       (rng w),
     Ok tt).
Proof. reflexivity. Qed.

(** C7, as the claim states it, fails for an unknown token that comes
    after ["all"]: the loop has been left and the token is never looked up. *)
Lemma unknown_after_all_no_abort :
  (main sample_home sample_body (mkNamespace ["all"; "nosuch"] false) sample_world).2 = Ok tt.
Proof. vm_compute. done. Qed.

(** C7 (amended): let [tok] be the first token that is not a key of
    [figlist], and let it differ from ["all"].  Once the figure functions
    named by the tokens before it have run to completion, the entry point
    aborts with [KeyError tok], in the world those functions left; if one
    of them raises, that exception aborts the run instead.  Either way the
    run ends in an exception and nothing after [tok] is processed. *)
Theorem unknown_token_aborts home body (pre post : list string) (tok : string)
    (flag : bool) (w : World)
    (Hpre : Forall (fun t => t ∈ dict_keys figlist) pre)
    (Hall : tok <> "all")
    (Hkey : tok ∉ dict_keys figlist) :
  match call_each (call home body) (named_functions pre) w with
  | (w1, Ok _) =>
      main home body (mkNamespace (pre ++ tok :: post) flag) w = (w1, Raise (KeyError tok))
  | (w1, Raise e) =>
      main home body (mkNamespace (pre ++ tok :: post) flag) w = (w1, Raise e)
  end.
Proof.
  rewrite main_nonempty by (by destruct pre).
  rewrite figure_loop_prefix by done.
  destruct (call_each _ _ w) as [w1 [[]|e]] eqn:Hcalls;
    [rewrite (bind_ok _ _ _ _ _ Hcalls) | by rewrite (bind_raise _ _ _ _ _ Hcalls)].
  cbn [figure_loop].
  destruct (String.eqb_spec tok "all") as [->|_]; [done|].
  rewrite dict_getitem_missing by done. reflexivity.
Qed.

Lemma unknown_token_aborts_witness :
  main sample_home sample_body (mkNamespace (["SH"] ++ "nosuch" :: ["Bruntt"]) false)
       sample_world
  = ((call sample_home sample_body Pleiades_vsini_comparison sample_world).1,
     Raise (KeyError "nosuch")).
Proof.
  assert (H := unknown_token_aborts sample_home sample_body ["SH"] ["Bruntt"] "nosuch"
                 false sample_world).
  cbv beta in H. apply H.
  - compute_done.
  - compute_done.
  - compute_done.
Defined.

Example unknown_token_call_order :
  let r := main sample_home tracing_body
             (mkNamespace ["rrfracs"; "SH"; "nosuch"; "Bruntt"] false) sample_world in
  stdout r.1 = ["plot_rr_fractions"; "Pleiades_vsini_comparison"]
  /\ r.2 = Raise (KeyError "nosuch").
Proof. vm_compute. done. Qed.

(** The parsed flag is never read. *)
Lemma main_ignores_list_figs home body (genfigs : list string) (flag : bool) (w : World) :
  main home body (mkNamespace genfigs flag) w
  = main home body (mkNamespace genfigs false) w.
Proof. reflexivity. Qed.

Lemma span_all {A} (p : A -> bool) (l rest : list A) :
  forallb p l = true ->
  match rest with [] => True | x :: _ => p x = false end ->
  span p (l ++ rest) = (l, rest).
Proof.
  intros Hl Hrest. induction l as [|x l IH].
  - destruct rest as [|y rest]; [done|]. cbn. by rewrite Hrest.
  - cbn in Hl |- *. apply andb_true_iff in Hl as [Hx Hl]. by rewrite Hx, IH.
Qed.

Lemma forallb_replicate {A} (p : A -> bool) (n : nat) (x : A) :
  p x = true -> forallb p (replicate n x) = true.
Proof. intros Hx. induction n as [|n IH]; [done|]. cbn. by rewrite Hx, IH. Qed.

Lemma dash_free_not_flag (t : string) : dash_token t = false -> list_figs_token t = false.
Proof.
  intros Ht. unfold list_figs_token.
  destruct (String.eqb_spec t "--list-figs") as [->|]; [done|done].
Qed.

(** Flags in front of and behind the figure names are accepted, and the
    names reach [args.figs] as they stand. *)
Lemma parse_args_flags_around (names : list string) (lead trail : nat) :
  Forall (fun t => dash_token t = false) names ->
  exists flag : bool,
    parse_args (replicate lead "--list-figs" ++ names ++ replicate trail "--list-figs")
    = Some (Ok (mkNamespace names flag)).
Proof.
  intros Hnames. unfold parse_args.
  assert (Hnoflag : forallb (fun t => negb (list_figs_token t)) names = true).
  { apply forallb_forall. intros t Ht%list_elem_of_In.
    rewrite Forall_forall in Hnames. by rewrite dash_free_not_flag by auto. }
  assert (Hknown : forallb (fun t => list_figs_token t || negb (dash_token t))
                     (replicate lead "--list-figs" ++ names ++ replicate trail "--list-figs")
                   = true).
  { rewrite !forallb_app, !forallb_replicate by done. cbn [andb].
    rewrite andb_true_r. apply forallb_forall. intros t Ht%list_elem_of_In.
    rewrite Forall_forall in Hnames. rewrite Hnames by done. apply orb_true_r. }
  rewrite Hknown.
  destruct names as [|name names]; eexists.
  - cbn [app]. rewrite <- (app_nil_r (replicate lead _ ++ replicate trail _)) at 1.
    rewrite span_all; [reflexivity| |done].
    by rewrite forallb_app, !forallb_replicate.
  - rewrite (span_all list_figs_token (replicate lead "--list-figs")); cycle 1.
    { by apply forallb_replicate. }
    { cbn [app]. apply dash_free_not_flag. by inversion Hnames. }
    cbn [snd].
    rewrite (span_all (fun t => negb (list_figs_token t)) (name :: names)); cycle 1.
    { exact Hnoflag. }
    { by destruct trail. }
    by rewrite forallb_replicate.
Qed.

(** C10, as the claim states it, fails when the flag stands between two
    figure names: argparse hands [figs] the names before the flag only and
    rejects the command line, where the same names without the flag run
    their figure functions. *)
Lemma list_figs_between_names_aborts :
  script sample_home tracing_body ["Bruntt"; "--list-figs"; "SH"] sample_world
  = Some (sample_world, Raise (SystemExit 2))
  /\ (fun r : World * result unit => (stdout r.1, r.2))
       <$> script sample_home tracing_body ["Bruntt"; "SH"] sample_world
     = Some (["Bruntt_vsini_comparison"; "Pleiades_vsini_comparison"], Ok tt).
Proof. vm_compute. done. Qed.

(** C10 (amended): given in front of the first or behind the last figure
    name, any number of times, [--list-figs] changes nothing: the command
    line is accepted, and the run is the run of the figure names alone,
    with the same calls, the same output and the same outcome.  The names
    are tokens that do not start with a dash. *)
Theorem list_figs_flag_no_effect home body (names : list string) (lead trail : nat)
    (w : World) :
  Forall (fun t => dash_token t = false) names ->
  script home body
    (replicate lead "--list-figs" ++ names ++ replicate trail "--list-figs") w
  = script home body names w
  /\ script home body names w = Some (main home body (mkNamespace names false) w).
Proof.
  intros Hnames.
  destruct (parse_args_flags_around names lead trail Hnames) as [flag Hflags].
  destruct (parse_args_flags_around names 0 0 Hnames) as [flag0 Hplain].
  cbn [replicate app] in Hplain. rewrite app_nil_r in Hplain.
  unfold script. rewrite Hflags, Hplain. unfold bind, lift.
  by rewrite (main_ignores_list_figs _ _ _ flag), (main_ignores_list_figs _ _ _ flag0).
Qed.

Lemma list_figs_flag_no_effect_witness :
  script sample_home tracing_body
    (replicate 1 "--list-figs" ++ ["SH"; "Bruntt"] ++ replicate 2 "--list-figs") sample_world
  = script sample_home tracing_body ["SH"; "Bruntt"] sample_world
  /\ script sample_home tracing_body ["SH"; "Bruntt"] sample_world
     = Some (main sample_home tracing_body (mkNamespace ["SH"; "Bruntt"] false) sample_world).
Proof.
  apply (list_figs_flag_no_effect sample_home tracing_body ["SH"; "Bruntt"] 1 2 sample_world).
  compute_done.
Defined.

Example parse_args_accepts_and_rejects :
  parse_args [] = Some (Ok (mkNamespace [] false))
  /\ parse_args ["--list-figs"] = Some (Ok (mkNamespace [] true))
  /\ parse_args ["--list-figs"; "all"; "--list-figs"] = Some (Ok (mkNamespace ["all"] true))
  /\ parse_args ["Bruntt"; "--list-figs"; "SH"] = Some (Raise (SystemExit 2))
  /\ parse_args ["Bruntt"; "-h"] = None.
Proof. vm_compute. done. Qed.

(** ** [running_percentile] *)

(** C8: the result of [running_percentile], a pair of arrays or the
    exception raised, is the same for any two [yvals] of equal length:
    [yvals] enters through its length only. *)
Theorem running_percentile_ignores_yvals np_mean np_percentile
    (xvals yvals1 yvals2 : list fval) (size : Z) (percentile : fval)
    (Hlen : length yvals1 = length yvals2) :
  running_percentile np_mean np_percentile xvals yvals1 size percentile
  = running_percentile np_mean np_percentile xvals yvals2 size percentile.
Proof. unfold running_percentile. by rewrite Hlen. Qed.

Lemma running_percentile_ignores_yvals_witness :
  running_percentile sample_np_mean sample_np_percentile
    [Finite 1; Finite 2; Finite 4; Finite 8] [Finite 0; Finite 0; Finite 0; Finite 0]
    2 (Finite (1 # 2))
  = running_percentile sample_np_mean sample_np_percentile
    [Finite 1; Finite 2; Finite 4; Finite 8] [Finite 5; NaN; Finite 7; PosInf]
    2 (Finite (1 # 2)).
Proof.
  apply (running_percentile_ignores_yvals sample_np_mean sample_np_percentile
           [Finite 1; Finite 2; Finite 4; Finite 8]
           [Finite 0; Finite 0; Finite 0; Finite 0]
           [Finite 5; NaN; Finite 7; PosInf] 2 (Finite (1 # 2))).
  reflexivity.
Defined.

Example running_percentile_windows :
  running_percentile sample_np_mean sample_np_percentile
    [Finite 1; Finite 2; Finite 4; Finite 8] [Finite 5; NaN; Finite 7; PosInf]
    2 (Finite (1 # 2))
  = Ok ([Finite (3 # 2); Finite 3], [Finite 1; Finite 2]).
Proof. vm_compute. reflexivity. Qed.

Example running_percentile_short_yvals :
  running_percentile sample_np_mean sample_np_percentile
    [Finite 1; Finite 2; Finite 4; Finite 8] [Finite 5; NaN; Finite 7] 2 (Finite (1 # 2))
  = Raise (IndexError "index is out of bounds").
Proof. vm_compute. reflexivity. Qed.

(** ** The scatter loop of [binary_fit] *)

Lemma scatter_iteration_run simulate sig real measured w w1 run :
  simulate sig w = (w1, Ok run) ->
  scatter_iteration simulate sig (real, measured) w
  = if converged run
    then (add_stdout [pretty (exit_mode run)] w1,
          Ok (real ++ [single_star_std run], measured ++ [stddev_0 run]))
    else (add_stdout [pretty (exit_mode run); message run] w1, Ok (real, measured)).
Proof.
  intros Hsim. unfold scatter_iteration, converged.
  rewrite (bind_ok _ _ _ _ _ Hsim).
  unfold bind, print, ret, add_stdout. cbn.
  destruct (exit_mode run =? 0); cbn; [done|].
  by rewrite <- app_assoc.
Qed.

Lemma scatter_iteration_raise simulate sig scatter w w1 e :
  simulate sig w = (w1, Raise e) ->
  scatter_iteration simulate sig scatter w = (w1, Raise e).
Proof.
  intros Hsim. destruct scatter as [real measured]. unfold scatter_iteration.
  by rewrite (bind_raise _ _ _ _ _ Hsim).
Qed.

(** The world an iteration leaves does not depend on the two lists. *)
Lemma scatter_iteration_world simulate sig scatter scatter' w :
  (scatter_iteration simulate sig scatter w).1
  = (scatter_iteration simulate sig scatter' w).1.
Proof.
  destruct scatter as [r m], scatter' as [r' m'].
  destruct (simulate sig w) as [w1 [run|e]] eqn:Hsim.
  - rewrite !(scatter_iteration_run _ _ _ _ _ _ _ Hsim). by destruct (converged run).
  - by rewrite !(scatter_iteration_raise _ _ _ _ _ _ Hsim).
Qed.

Lemma loop_runs_cons simulate sig rest w :
  loop_runs simulate (sig :: rest) w
  = match simulate sig w with
    | (_, Ok run) =>
        run :: loop_runs simulate rest (scatter_iteration simulate sig ([], []) w).1
    | (_, Raise _) => []
    end.
Proof. reflexivity. Qed.

Lemma scatter_loop_runs simulate (sigmas : list Z) real measured w :
  length (loop_runs simulate sigmas w) = length sigmas ->
  exists w',
    scatter_loop simulate sigmas (real, measured) w
    = (w', Ok (real ++ (single_star_std <$> filter (fun r => Is_true (converged r))
                                                    (loop_runs simulate sigmas w)),
               measured ++ (stddev_0 <$> filter (fun r => Is_true (converged r))
                                                (loop_runs simulate sigmas w)))).
Proof.
  revert real measured w. induction sigmas as [|sig rest IH]; intros real measured w Hlen.
  - exists w. cbn. by rewrite !app_nil_r.
  - rewrite loop_runs_cons in Hlen |- *.
    change (scatter_loop simulate (sig :: rest) (real, measured))
      with (bind (scatter_iteration simulate sig (real, measured))
                 (fun sc => scatter_loop simulate rest sc)).
    destruct (simulate sig w) as [w1 [run|e]] eqn:Hsim; [|done].
    cbn [length] in Hlen. injection Hlen as Hlen.
    set (w2 := (scatter_iteration simulate sig ([], []) w).1) in *.
    pose proof (scatter_iteration_run _ _ real measured _ _ _ Hsim) as Hit.
    assert (Hw2 : (scatter_iteration simulate sig (real, measured) w).1 = w2)
      by apply scatter_iteration_world.
    rewrite Hit in Hw2. rewrite filter_cons.
    destruct (converged run) eqn:Hc; cbn [fst] in Hw2;
      rewrite (bind_ok _ _ _ _ _ Hit), Hw2.
    + destruct (IH (real ++ [single_star_std run]) (measured ++ [stddev_0 run]) _ Hlen)
        as [w' Hw'].
      exists w'. rewrite Hw'.
      destruct (decide (Is_true true)) as [_|Hn]; [|by destruct Hn].
      cbn [fmap list_fmap]. by rewrite <- !app_assoc.
    + destruct (IH real measured _ Hlen) as [w' Hw'].
      exists w'. rewrite Hw'. by destruct (decide (Is_true false)).
Qed.

(** C4: in a pass of the loop whose fit reports a nonzero [exit_mode],
    the fitter's message is printed (after the flag itself), nothing is
    raised, and the two scatter lists are left as they were; with a zero
    flag the pass appends the pair of scatter values.  Hence, when no call
    of the collaborator raises, the loop ends normally with exactly the
    values of the converged fits, in order, appended to the two lists. *)
Theorem scatter_loop_skips_failed_fits simulate :
  (forall sig real measured w w1 run,
     simulate sig w = (w1, Ok run) ->
     (exit_mode run <> 0 ->
      scatter_iteration simulate sig (real, measured) w
      = (add_stdout [pretty (exit_mode run); message run] w1, Ok (real, measured)))
     /\ (exit_mode run = 0 ->
         scatter_iteration simulate sig (real, measured) w
         = (add_stdout ["0"] w1,
            Ok (real ++ [single_star_std run], measured ++ [stddev_0 run]))))
  /\ (forall sigmas real measured w,
        length (loop_runs simulate sigmas w) = length sigmas ->
        exists w',
          scatter_loop simulate sigmas (real, measured) w
          = (w', Ok (real ++ (single_star_std <$> filter (fun r => exit_mode r = 0)
                                                          (loop_runs simulate sigmas w)),
                     measured ++ (stddev_0 <$> filter (fun r => exit_mode r = 0)
                                                      (loop_runs simulate sigmas w))))).
Proof.
  split.
  - intros sig real measured w w1 run Hsim.
    rewrite (scatter_iteration_run _ _ _ _ _ _ _ Hsim). unfold converged. split.
    + intros Hne. by rewrite (proj2 (Z.eqb_neq _ _) Hne).
    + intros ->. done.
  - intros sigmas real measured w Hlen.
    destruct (scatter_loop_runs simulate sigmas real measured w Hlen) as [w' Hw'].
    exists w'. rewrite Hw'. f_equal. f_equal.
    assert (Hfilter : forall l : list FitRun,
               filter (fun r => Is_true (converged r)) l = filter (fun r => exit_mode r = 0) l).
    { intros l. apply list_filter_iff. intros r. unfold converged.
      rewrite Is_true_true. apply Z.eqb_eq. }
    by rewrite Hfilter.
Qed.

Lemma scatter_loop_skips_failed_fits_witness :
  (scatter_iteration sample_simulate 51 ([Finite 1], [Finite 2]) sample_world
   = (add_stdout ["8"; "Positive directional derivative for linesearch"]
        (sample_simulate 51 sample_world).1,
      Ok ([Finite 1], [Finite 2])))
  /\ (scatter_loop sample_simulate [50; 51; 52] ([], []) sample_world).2
     = Ok ([Finite (50 # 1000); Finite (52 # 1000)], [Finite (52 # 1000); Finite (54 # 1000)]).
Proof.
  destruct (scatter_loop_skips_failed_fits sample_simulate) as [Hpass Hloop]. split.
  - apply (Hpass 51 [Finite 1] [Finite 2] sample_world _
             (mkFitRun 8 "Positive directional derivative for linesearch"
                       (Finite (51 # 1000)) (Finite (53 # 1000)))).
    + reflexivity.
    + discriminate.
  - destruct (Hloop [50; 51; 52] [] [] sample_world) as [w' Hw'].
    + reflexivity.
    + rewrite Hw'. reflexivity.
Defined.

(** ** The period selections *)

Lemma result_map_ok {A B} (f : A -> result B) (g : A -> B) (l : list A) :
  Forall (fun a => f a = Ok (g a)) l -> result_map f l = Ok (map g l).
Proof.
  induction 1 as [|a l Ha _ IH]; [done|].
  cbn. by rewrite Ha, IH.
Qed.

Lemma result_map_inv {A B} (f : A -> result B) (l : list A) (bs : list B) :
  result_map f l = Ok bs -> Forall2 (fun a b => f a = Ok b) l bs.
Proof.
  revert bs. induction l as [|a l IH]; intros bs; cbn.
  - intros [= <-]. constructor.
  - destruct (f a) as [b|e] eqn:Ha; [|done]. cbn.
    destruct (result_map f l) as [bs'|e]; [|done]. cbn.
    intros [= <-]. constructor; [done | by apply IH].
Qed.

Lemma compare_cell_period cmp c (r : gmap string value) :
  is_Some (row_period r) ->
  compare_cell cmp c (default VMasked (r !! "Prot")) = Ok (cmp (period_of r) c).
Proof.
  unfold period_of, row_period, compare_cell. intros [p Hp].
  destruct (r !! "Prot") as [v|]; [|done]. cbn in *. by rewrite Hp.
Qed.

Lemma compare_cell_inv cmp c (r : gmap string value) b :
  compare_cell cmp c (default VMasked (r !! "Prot")) = Ok b -> is_Some (row_period r).
Proof.
  unfold row_period, compare_cell.
  destruct (r !! "Prot") as [v|]; cbn; [|done].
  destruct (value_as_float v); [eauto | done].
Qed.

Lemma compare_column_ok cmp c (t : Table) :
  "Prot" ∈ colnames t ->
  Forall (fun r => is_Some (row_period r)) (rows t) ->
  rbind (table_getitem "Prot" t) (result_map (compare_cell cmp c))
  = Ok (map (fun r => cmp (period_of r) c) (rows t)).
Proof.
  intros Hcol Hnum. unfold table_getitem. rewrite bool_decide_eq_true_2 by done.
  cbn [rbind].
  induction Hnum as [|r l Hr _ IH]; [done|].
  cbn. rewrite compare_cell_period by done. cbn.
  by rewrite IH.
Qed.

Lemma compare_column_inv cmp c (t : Table) (bs : list bool) :
  rbind (table_getitem "Prot" t) (result_map (compare_cell cmp c)) = Ok bs ->
  "Prot" ∈ colnames t /\ Forall (fun r => is_Some (row_period r)) (rows t).
Proof.
  unfold table_getitem. case_bool_decide as Hcol; [|done]. cbn [rbind].
  intros Hmap. split; [done|].
  apply result_map_inv in Hmap. revert bs Hmap.
  induction (rows t) as [|r l IH]; intros bs Hmap; [constructor|].
  cbn in Hmap. inversion Hmap as [|? b ? bs' Hb Hrest]; subst.
  constructor; [by eapply compare_cell_inv | by eapply IH].
Qed.

Lemma logical_and_selects (cmp1 cmp2 : fval -> fval -> bool) c1 c2
    (l : list (gmap string value)) :
  Forall (fun r => is_Some (row_period r)) l ->
  np_logical_and (map (fun r => cmp1 (period_of r) c1) l)
                 (map (fun r => cmp2 (period_of r) c2) l)
  = Ok (map (selects (fun p => cmp1 p c1 && cmp2 p c2)) l).
Proof.
  intros Hnum.
  assert (Hzip : zip_with andb (map (fun r => cmp1 (period_of r) c1) l)
                               (map (fun r => cmp2 (period_of r) c2) l)
                 = map (selects (fun p => cmp1 p c1 && cmp2 p c2)) l).
  { induction Hnum as [|r l [p Hp] _ IH]; [done|].
    cbn. rewrite IH. unfold selects, period_of. by rewrite Hp. }
  destruct l as [|r1 [|r2 l]]; [done | by rewrite <- Hzip |].
  rewrite <- Hzip. unfold np_logical_and.
  cbn [map]. cbn [length]. by rewrite !length_map, Nat.eqb_refl.
Qed.

Lemma rapid_period_mask_ok (t : Table) :
  "Prot" ∈ colnames t ->
  Forall (fun r => is_Some (row_period r)) (rows t) ->
  rapid_period_mask t = Ok (map (selects rapid_period_cut) (rows t)).
Proof.
  intros Hcol Hnum. unfold rapid_period_mask, column_gt, column_le.
  rewrite !compare_column_ok by done. cbn [rbind].
  by apply logical_and_selects.
Qed.

Lemma marginal_period_mask_ok (t : Table) :
  "Prot" ∈ colnames t ->
  Forall (fun r => is_Some (row_period r)) (rows t) ->
  marginal_period_mask t = Ok (map (selects marginal_period_cut) (rows t)).
Proof.
  intros Hcol Hnum. unfold marginal_period_mask, column_gt, column_lt.
  rewrite !compare_column_ok by done. cbn [rbind].
  by apply logical_and_selects.
Qed.

Lemma rapid_period_mask_inv (t : Table) (mask : list bool) :
  rapid_period_mask t = Ok mask ->
  "Prot" ∈ colnames t /\ Forall (fun r => is_Some (row_period r)) (rows t).
Proof.
  unfold rapid_period_mask, column_gt.
  destruct (rbind (table_getitem "Prot" t) _) as [above|e] eqn:Habove; [|done].
  intros _. by eapply compare_column_inv.
Qed.

Lemma mask_rows_filter (p : gmap string value -> bool) (l : list (gmap string value)) :
  map fst (filter (fun rb : gmap string value * bool => Is_true (snd rb)) (zip l (map p l)))
  = filter (fun r => Is_true (p r)) l.
Proof.
  induction l as [|r l IH]; [done|].
  cbn [map zip zip_with]. rewrite !filter_cons. cbn [snd].
  destruct (p r); cbn.
  - destruct (decide True) as [_|[]]; [|done]. cbn. by rewrite IH.
  - destruct (decide False) as [[]|_]. done.
Qed.

Lemma table_mask_selects (cut : fval -> bool) (t : Table) :
  table_mask t (map (selects cut) (rows t)) = Ok (select_rows cut t).
Proof.
  unfold table_mask, select_rows.
  by rewrite length_map, Nat.eqb_refl, mask_rows_filter.
Qed.

Lemma period_cuts_exclusive (p : fval) :
  rapid_period_cut p && marginal_period_cut p = false.
Proof.
  unfold rapid_period_cut, marginal_period_cut, float_gt.
  destruct p as [| | |q]; try reflexivity.
  cbn [float_lt float_le]. unfold Qlt_bool.
  destruct (Qle_bool q 7); cbn; by rewrite ?andb_false_r.
Qed.

(** C9: a period is never kept by both cuts, and so no row of the dwarf
    sample that the rapid-rotator selection keeps is kept by the
    marginal-rotator selection. *)
Theorem period_selections_disjoint :
  (forall p : fval, rapid_period_cut p && marginal_period_cut p = false)
  /\ (forall (mcq_dwarfs : Table) (rapid marginal : list bool)
             (mcq_rapid_dwarfs mcq_marginal_dwarfs : Table) (r : gmap string value),
        rapid_period_mask mcq_dwarfs = Ok rapid ->
        marginal_period_mask mcq_dwarfs = Ok marginal ->
        table_mask mcq_dwarfs rapid = Ok mcq_rapid_dwarfs ->
        table_mask mcq_dwarfs marginal = Ok mcq_marginal_dwarfs ->
        r ∈ rows mcq_rapid_dwarfs ->
        r ∉ rows mcq_marginal_dwarfs).
Proof.
  split; [apply period_cuts_exclusive|].
  intros t rapid marginal sel1 sel2 r Hrapid Hmarginal.
  destruct (rapid_period_mask_inv _ _ Hrapid) as [Hcol Hnum].
  rewrite rapid_period_mask_ok in Hrapid by done.
  rewrite marginal_period_mask_ok in Hmarginal by done.
  injection Hrapid as <-. injection Hmarginal as <-.
  rewrite !table_mask_selects. intros [= <-] [= <-].
  unfold select_rows. cbn [rows]. rewrite !list_elem_of_filter.
  intros [Hr _] [Hm _]. unfold selects in *.
  destruct (row_period r) as [p|]; [|done].
  pose proof (period_cuts_exclusive p) as Hex.
  destruct (rapid_period_cut p), (marginal_period_cut p); done.
Qed.

Lemma period_selections_disjoint_witness :
  sample_star 1200 "2M19000001" 5100 7
    ∉ rows (select_rows marginal_period_cut sample_mcq_dwarfs).
Proof.
  apply (proj2 period_selections_disjoint sample_mcq_dwarfs
           [true; true; false; false; true] [false; false; false; true; false]
           (select_rows rapid_period_cut sample_mcq_dwarfs)
           (select_rows marginal_period_cut sample_mcq_dwarfs)).
  - vm_compute. reflexivity.
  - vm_compute. reflexivity.
  - vm_compute. reflexivity.
  - vm_compute. reflexivity.
  - compute_done.
Defined.

(** ** Paths of the output files *)

Lemma string_app_inj (a b c : string) : a +:+ b = a +:+ c -> b = c.
Proof.
  induction a as [|x a IH]; [done|].
  change (String x (a +:+ b) = String x (a +:+ c) -> b = c).
  intros [= H]. by apply IH.
Qed.

Lemma string_length_app (a b : string) :
  String.length (a +:+ b) = (String.length a + String.length b)%nat.
Proof.
  induction a as [|x a IH]; [done|].
  change (S (String.length (a +:+ b)) = S (String.length a + String.length b)).
  by rewrite IH.
Qed.

Lemma string_app_inj_r (a b c : string) : a +:+ c = b +:+ c -> a = b.
Proof.
  revert b. induction a as [|x a IH]; intros [|y b] H.
  - done.
  - apply (f_equal String.length) in H.
    rewrite !string_length_app in H. cbn in H. lia.
  - apply (f_equal String.length) in H.
    rewrite !string_length_app in H. cbn in H. lia.
  - change (String x (a +:+ c) = String y (b +:+ c)) in H.
    injection H as -> H. f_equal. by apply IH.
Qed.

(** One more component below a directory that is not the bare root. *)
Lemma path_str_child (dir : Path) (name : string) :
  parts dir <> [] ->
  plain_name name = true ->
  path_component name = true ->
  path_str (dir // name) = path_str dir +:+ "/" +:+ name.
Proof.
  intros Hparts Hplain Hcomp. unfold truediv, path_of_string.
  rewrite parse_root_plain, split_on_plain by done. cbn [root parts String.eqb].
  rewrite filter_cons, filter_nil, Hcomp.
  destruct (decide (Is_true true)) as [_|[]]; [|done].
  unfold path_str. cbn [parts root].
  destruct (parts dir) as [|a l] eqn:Hl; [done|].
  destruct ((a :: l) ++ [name]) as [|b l'] eqn:Happ; [done|].
  rewrite <- Happ, concat_snoc by done.
  by rewrite !string_app_assoc.
Qed.

Lemma TABLE_PATH_parts (home : Path) : parts (TABLE_PATH home) <> [].
Proof.
  change (parts (TABLE_PATH home))
    with (((parts home ++ ["papers"]) ++ ["rotletter18"]) ++ ["tables"]).
  by destruct (parts home).
Qed.

Lemma FIGURE_PATH_parts (home : Path) : parts (FIGURE_PATH home) <> [].
Proof.
  change (parts (FIGURE_PATH home))
    with (((parts home ++ ["papers"]) ++ ["rotletter18"]) ++ ["fig"]).
  by destruct (parts home).
Qed.

Lemma table_paths_distinct (home : Path) (name1 name2 : string) :
  plain_name name1 = true -> path_component name1 = true ->
  plain_name name2 = true -> path_component name2 = true ->
  name1 <> name2 ->
  path_str (TABLE_PATH home // name1) <> path_str (TABLE_PATH home // name2).
Proof.
  intros Hp1 Hc1 Hp2 Hc2 Hne.
  rewrite !path_str_child by (done || apply TABLE_PATH_parts).
  intros H. apply string_app_inj, string_app_inj in H. done.
Qed.

(** ** Writing the tables *)

Lemma table_getitem_cols_inv (cols : list string) (t t' : Table) :
  table_getitem_cols cols t = Ok t' ->
  colnames t' = cols
  /\ rows t' = map (fun r : gmap string value =>
                      filter (fun kv : string * value => kv.1 ∈ cols) r) (rows t)
  /\ meta_comments t' = meta_comments t.
Proof.
  unfold table_getitem_cols. destruct (List.find _ cols); [done|].
  by intros [= <-].
Qed.

Lemma table_getitem_cols_ok (cols : list string) (t : Table) :
  Forall (fun c => c ∈ colnames t) cols ->
  exists t', table_getitem_cols cols t = Ok t'.
Proof.
  intros Hcols. unfold table_getitem_cols.
  destruct (List.find _ cols) as [c|] eqn:Hfind; [|eauto].
  apply List.find_some in Hfind as [Hin Hc].
  rewrite Forall_forall in Hcols. apply list_elem_of_In, Hcols in Hin.
  by rewrite bool_decide_eq_true_2 in Hc.
Qed.

Lemma table_sort_inv (name : string) (t t' : Table) :
  table_sort name t = Ok t' ->
  colnames t' = colnames t
  /\ rows t' = merge_sort (row_le name) (rows t)
  /\ meta_comments t' = meta_comments t.
Proof.
  unfold table_sort. case_bool_decide; [|done].
  destruct (result_map _ (rows t)); [|done]. cbn.
  by intros [= <-].
Qed.

Lemma table_sort_ok (name : string) (t : Table) :
  name ∈ colnames t ->
  Forall (fun r => is_Some (int_cell name r)) (rows t) ->
  exists t', table_sort name t = Ok t'.
Proof.
  intros Hname Hint. unfold table_sort. rewrite bool_decide_eq_true_2 by done.
  rewrite (result_map_ok _ (sort_key name)); [cbn; eauto|].
  eapply Forall_impl; [exact Hint|].
  intros r [z Hz]. unfold sort_key. by rewrite Hz.
Qed.

Lemma rotator_table_colnames period_mask env (t : Table) :
  rotator_table period_mask env = Ok t -> colnames t = abridged_cols.
Proof.
  unfold rotator_table.
  destruct (period_mask _) as [mask|]; [|done]. cbn [rbind].
  destruct (table_mask _ _) as [selected|]; [|done]. cbn [rbind].
  destruct (table_getitem_cols _ _) as [t1|] eqn:Hcols; [|done]. cbn [rbind].
  intros Hsort.
  apply table_getitem_cols_inv in Hcols as (Hc & _ & _).
  apply table_sort_inv in Hsort as (Hs & _ & _). congruence.
Qed.

Lemma table_write_overwrite (t : Table) path format names formats fill_values latexdict w :
  length names = length (colnames t) ->
  String.eqb format "ascii.fixed_width" && no_rows t = false ->
  table_write t path format names true formats fill_values latexdict w
  = (set_files (<[path := TableFile (mkWritten format names (table_cells t)
                                       (meta_comments t) formats fill_values latexdict)]>
                  (files w)) w,
     Ok tt).
Proof.
  intros Hlen Hrows. unfold table_write. cbn [negb andb].
  by rewrite (proj2 (Nat.eqb_eq _ _) Hlen), Hrows.
Qed.

(** The fixed-width writer has no column widths for a table without rows. *)
Lemma table_write_fixed_width_empty (t : Table) path names overwrite formats fill_values
    latexdict w :
  length names = length (colnames t) ->
  rows t = [] ->
  files w !! path = None \/ overwrite = true ->
  table_write t path "ascii.fixed_width" names overwrite formats fill_values latexdict w
  = (w, Raise (ValueError "max() arg is an empty sequence")).
Proof.
  intros Hlen Hrows Hfree. unfold table_write, no_rows.
  rewrite (proj2 (Nat.eqb_eq _ _) Hlen), Hrows.
  destruct Hfree as [Hnone| ->]; [|done].
  rewrite Hnone. rewrite bool_decide_eq_false_2 by (by intros [? ?]).
  by rewrite andb_false_r.
Qed.

(** Without [overwrite] a second write to the same path is refused. *)
Lemma table_write_refuses_existing (t : Table) path format names formats fill_values
    latexdict w content :
  files w !! path = Some content ->
  table_write t path format names false formats fill_values latexdict w
  = (w, Raise (OSError path)).
Proof.
  intros Hfile. unfold table_write. cbn [negb andb].
  by rewrite bool_decide_eq_true_2 by (by rewrite Hfile).
Qed.

(** Both writers fail before touching a file; or, for a table without
    rows, write the LaTeX file and fail in the fixed-width writer; or
    write their two files. *)
Lemma write_rapid_rotator_tables_files home env w :
  write_rapid_rotator_tables home env w
  = match rotator_table rapid_period_mask env with
    | Ok t =>
        if no_rows t then
          (set_files
             (<[path_str (TABLE_PATH home // "table1.tex") :=
                  latex_file rapid_caption rapid_tablefoot t]> (files w)) w,
           Raise (ValueError "max() arg is an empty sequence"))
        else
          (set_files
             (<[path_str (TABLE_PATH home // "table1.txt") := ascii_file t]>
                (<[path_str (TABLE_PATH home // "table1.tex") :=
                     latex_file rapid_caption rapid_tablefoot t]> (files w))) w,
           Ok tt)
    | Raise e => (w, Raise e)
    end.
Proof.
  destruct (rotator_table rapid_period_mask env) as [t|e] eqn:Ht.
  - pose proof (rotator_table_colnames _ _ _ Ht) as Hcols.
    unfold rotator_table in Ht. unfold write_rapid_rotator_tables, bind, lift.
    destruct (rapid_period_mask _) as [mask|]; [|done]. cbn [rbind] in Ht.
    destruct (table_mask _ _) as [selected|]; [|done]. cbn [rbind] in Ht.
    destruct (table_getitem_cols _ _) as [t1|]; [|done]. cbn [rbind] in Ht.
    rewrite Ht.
    rewrite table_write_overwrite
      by ((cbn [table_head colnames]; by rewrite Hcols) || reflexivity).
    destruct (no_rows t) eqn:Hrows.
    + rewrite table_write_fixed_width_empty; [reflexivity| |..].
      * cbn [set_comments colnames]. by rewrite Hcols.
      * cbn [set_comments rows]. unfold no_rows in Hrows. by destruct (rows t).
      * by right.
    + rewrite table_write_overwrite; [reflexivity| |].
      * cbn [set_comments colnames]. by rewrite Hcols.
      * exact Hrows.
  - unfold rotator_table in Ht. unfold write_rapid_rotator_tables, bind, lift.
    destruct (rapid_period_mask _) as [mask|]; [|by injection Ht as ->].
    cbn [rbind] in Ht.
    destruct (table_mask _ _) as [selected|]; [|by injection Ht as ->].
    cbn [rbind] in Ht.
    destruct (table_getitem_cols _ _) as [t1|]; [|by injection Ht as ->].
    cbn [rbind] in Ht. by rewrite Ht.
Qed.

Lemma write_marginal_rotator_tables_files home env w :
  write_marginal_rotator_tables home env w
  = match rotator_table marginal_period_mask env with
    | Ok t =>
        if no_rows t then
          (set_files
             (<[path_str (TABLE_PATH home // "table2.tex") :=
                  latex_file marginal_caption marginal_tablefoot t]> (files w)) w,
           Raise (ValueError "max() arg is an empty sequence"))
        else
          (set_files
             (<[path_str (TABLE_PATH home // "table2.txt") := ascii_file t]>
                (<[path_str (TABLE_PATH home // "table2.tex") :=
                     latex_file marginal_caption marginal_tablefoot t]> (files w))) w,
           Ok tt)
    | Raise e => (w, Raise e)
    end.
Proof.
  destruct (rotator_table marginal_period_mask env) as [t|e] eqn:Ht.
  - pose proof (rotator_table_colnames _ _ _ Ht) as Hcols.
    unfold rotator_table in Ht. unfold write_marginal_rotator_tables, bind, lift.
    destruct (marginal_period_mask _) as [mask|]; [|done]. cbn [rbind] in Ht.
    destruct (table_mask _ _) as [selected|]; [|done]. cbn [rbind] in Ht.
    destruct (table_getitem_cols _ _) as [t1|]; [|done]. cbn [rbind] in Ht.
    rewrite Ht.
    rewrite table_write_overwrite
      by ((cbn [table_head colnames]; by rewrite Hcols) || reflexivity).
    destruct (no_rows t) eqn:Hrows.
    + rewrite table_write_fixed_width_empty; [reflexivity| |..].
      * cbn [set_comments colnames]. by rewrite Hcols.
      * cbn [set_comments rows]. unfold no_rows in Hrows. by destruct (rows t).
      * by right.
    + rewrite table_write_overwrite; [reflexivity| |].
      * cbn [set_comments colnames]. by rewrite Hcols.
      * exact Hrows.
  - unfold rotator_table in Ht. unfold write_marginal_rotator_tables, bind, lift.
    destruct (marginal_period_mask _) as [mask|]; [|by injection Ht as ->].
    cbn [rbind] in Ht.
    destruct (table_mask _ _) as [selected|]; [|by injection Ht as ->].
    cbn [rbind] in Ht.
    destruct (table_getitem_cols _ _) as [t1|]; [|by injection Ht as ->].
    cbn [rbind] in Ht. by rewrite Ht.
Qed.

(** A writer that returns has written both files from a table with rows. *)
Lemma write_rapid_rotator_tables_ok home env w w1 :
  write_rapid_rotator_tables home env w = (w1, Ok tt) ->
  exists t : Table,
    rotator_table rapid_period_mask env = Ok t
    /\ no_rows t = false
    /\ w1 = set_files
              (<[path_str (TABLE_PATH home // "table1.txt") := ascii_file t]>
                 (<[path_str (TABLE_PATH home // "table1.tex") :=
                      latex_file rapid_caption rapid_tablefoot t]> (files w))) w.
Proof.
  rewrite write_rapid_rotator_tables_files.
  destruct (rotator_table rapid_period_mask env) as [t|e]; [|done].
  destruct (no_rows t) eqn:Hrows; [done|].
  intros [= <-]. by exists t.
Qed.

Lemma write_marginal_rotator_tables_ok home env w w1 :
  write_marginal_rotator_tables home env w = (w1, Ok tt) ->
  exists t : Table,
    rotator_table marginal_period_mask env = Ok t
    /\ no_rows t = false
    /\ w1 = set_files
              (<[path_str (TABLE_PATH home // "table2.txt") := ascii_file t]>
                 (<[path_str (TABLE_PATH home // "table2.tex") :=
                      latex_file marginal_caption marginal_tablefoot t]> (files w))) w.
Proof.
  rewrite write_marginal_rotator_tables_files.
  destruct (rotator_table marginal_period_mask env) as [t|e]; [|done].
  destruct (no_rows t) eqn:Hrows; [done|].
  intros [= <-]. by exists t.
Qed.

Lemma insert_pair_twice (a b : string) (x y : FileContent) (m : gmap string FileContent) :
  <[b := y]> (<[a := x]> (<[b := y]> (<[a := x]> m))) = <[b := y]> (<[a := x]> m).
Proof.
  apply map_eq. intros k. rewrite !lookup_insert. by repeat case_decide.
Qed.

Lemma rewritten_files (a b : string) (x y : FileContent) (w : World) :
  a <> b ->
  let w1 := set_files (<[b := y]> (<[a := x]> (files w))) w in
  files w1 !! a = Some x /\ files w1 !! b = Some y
  /\ set_files (<[b := y]> (<[a := x]> (files w1))) w1 = w1.
Proof.
  intros Hab w1. unfold w1, set_files. cbn [files figures stdout rng].
  rewrite insert_pair_twice. split_and!; [|by rewrite lookup_insert_eq|done].
  rewrite lookup_insert_ne by done. by rewrite lookup_insert_eq.
Qed.

(** C6: start a table writer in any world, whatever the two paths hold
    there, and let it succeed.  Then each of its two files holds what the
    writer renders from the current catalogs (so earlier content of the
    paths is replaced, not kept), and running the writer again on the
    same catalogs succeeds in spite of the existing files and leaves the
    world, files included, exactly as the first run left it. *)
Theorem table_writers_rerun home env (w w1 : World) :
  (write_rapid_rotator_tables home env w = (w1, Ok tt) ->
   exists t : Table,
     rotator_table rapid_period_mask env = Ok t
     /\ files w1 !! path_str (TABLE_PATH home // "table1.tex")
        = Some (latex_file rapid_caption rapid_tablefoot t)
     /\ files w1 !! path_str (TABLE_PATH home // "table1.txt") = Some (ascii_file t)
     /\ write_rapid_rotator_tables home env w1 = (w1, Ok tt))
  /\ (write_marginal_rotator_tables home env w = (w1, Ok tt) ->
      exists t : Table,
        rotator_table marginal_period_mask env = Ok t
        /\ files w1 !! path_str (TABLE_PATH home // "table2.tex")
           = Some (latex_file marginal_caption marginal_tablefoot t)
        /\ files w1 !! path_str (TABLE_PATH home // "table2.txt") = Some (ascii_file t)
        /\ write_marginal_rotator_tables home env w1 = (w1, Ok tt)).
Proof.
  split.
  - intros (t & Ht & Hrows & ->)%write_rapid_rotator_tables_ok.
    exists t. split; [done|].
    rewrite write_rapid_rotator_tables_files, Ht, Hrows.
    destruct (rewritten_files
                (path_str (TABLE_PATH home // "table1.tex"))
                (path_str (TABLE_PATH home // "table1.txt"))
                (latex_file rapid_caption rapid_tablefoot t) (ascii_file t) w)
      as (Htex & Htxt & Hsame).
    { by apply table_paths_distinct. }
    by rewrite Hsame.
  - intros (t & Ht & Hrows & ->)%write_marginal_rotator_tables_ok.
    exists t. split; [done|].
    rewrite write_marginal_rotator_tables_files, Ht, Hrows.
    destruct (rewritten_files
                (path_str (TABLE_PATH home // "table2.tex"))
                (path_str (TABLE_PATH home // "table2.txt"))
                (latex_file marginal_caption marginal_tablefoot t) (ascii_file t) w)
      as (Htex & Htxt & Hsame).
    { by apply table_paths_distinct. }
    by rewrite Hsame.
Qed.

(** ** The rapid-rotator table *)

#[global] Instance row_le_trans name : Transitive (row_le name).
Proof. intros r1 r2 r3. unfold row_le. lia. Qed.
#[global] Instance row_le_total name : Total (row_le name).
Proof. intros r1 r2. unfold row_le. lia. Qed.

Lemma Qlt_bool_iff (a b : Q) : Qlt_bool a b = true <-> (a < b)%Q.
Proof.
  unfold Qlt_bool. rewrite negb_true_iff, <- not_true_iff_false, Qle_bool_iff.
  split; [apply Qnot_le_lt | apply Qlt_not_le].
Qed.

Lemma rapid_period_cut_iff (p : fval) :
  rapid_period_cut p = true <-> exists q : Q, p = Finite q /\ (3 # 2 < q)%Q /\ (q <= 7)%Q.
Proof.
  unfold rapid_period_cut, float_gt. split.
  - destruct p as [| | |q]; cbn; try done.
    rewrite andb_true_iff, Qlt_bool_iff, Qle_bool_iff. eauto.
  - intros (q & -> & Hlo & Hhi). cbn.
    rewrite andb_true_iff, Qlt_bool_iff, Qle_bool_iff. done.
Qed.

Lemma selects_rapid_rotator (r : gmap string value) :
  Is_true (selects rapid_period_cut r) <-> rapid_rotator r.
Proof.
  unfold selects, rapid_rotator. rewrite Is_true_true. split.
  - destruct (row_period r) as [p|]; [|done].
    rewrite rapid_period_cut_iff. intros (q & -> & H). eauto.
  - intros (q & -> & H). apply rapid_period_cut_iff. eauto.
Qed.

Lemma restrict_lookup (cols : list string) (r : gmap string value) (c : string) :
  c ∈ cols -> filter (fun kv : string * value => kv.1 ∈ cols) r !! c = r !! c.
Proof.
  intros Hc. destruct (r !! c) as [v|] eqn:Hr.
  - by apply map_lookup_filter_Some.
  - apply map_lookup_filter_None. by left.
Qed.

Lemma agree_on_restrict (t : Table) (r r' : gmap string value) :
  agree_on (colnames t) r r' ->
  agree_on (kept_columns t) r
           (filter (fun kv : string * value => kv.1 ∈ abridged_cols) r').
Proof.
  unfold agree_on, kept_columns. rewrite !Forall_forall.
  intros Hagree c [Habr Hc]%list_elem_of_filter.
  rewrite restrict_lookup by done. by apply Hagree.
Qed.

Lemma agree_on_int_cell (cols : list string) (name : string) (r r' : gmap string value) :
  name ∈ cols -> agree_on cols r r' -> int_cell name r' = int_cell name r.
Proof.
  unfold agree_on. rewrite Forall_forall. intros Hname Hagree.
  unfold int_cell. by rewrite Hagree.
Qed.

(** C3: let the dwarf sample have a numeric [Prot] and an integer
    [kepid] in every row, let the join deliver a left join of the
    selected rows that has the eight columns, and let at least one star of
    the sample have a period above 1.5 and at most 7 days (the
    fixed-width writer raises on a table without rows).  Then
    [write_rapid_rotator_tables] succeeds, and the table it writes to
    [table1.txt] (and, cut to five rows, to [table1.tex]) has exactly the
    columns KIC, APOGEE ID, effective temperature, K, M_K, corrected K
    excess, rotation period and iron abundance; its rows are sorted by
    ascending [kepid]; every row carries a star of the sample whose period
    is above 1.5 and at most 7 days; and every such star has a row. *)
Theorem rapid_rotator_table_contents home env (w : World) :
  let mcq_dwarfs := mcquillan_corrected_splitter env ["Dwarfs"; "Right Statistics Teff"] in
  let selected := select_rows rapid_period_cut mcq_dwarfs in
  let joined := join_by_2MASS_key env selected (read_dr14_allStar env)
                  "tm_designation" "APOGEE_ID" "left" in
  "Prot" ∈ colnames mcq_dwarfs ->
  "kepid" ∈ colnames mcq_dwarfs ->
  Forall (fun r => is_Some (row_period r)) (rows mcq_dwarfs) ->
  Forall (fun r => is_Some (int_cell "kepid" r)) (rows mcq_dwarfs) ->
  Forall (fun c => c ∈ colnames joined) abridged_cols ->
  left_join_of selected joined ->
  Exists rapid_rotator (rows mcq_dwarfs) ->
  exists t : Table,
    write_rapid_rotator_tables home env w
    = (set_files
         (<[path_str (TABLE_PATH home // "table1.txt") := ascii_file t]>
            (<[path_str (TABLE_PATH home // "table1.tex") :=
                 latex_file rapid_caption rapid_tablefoot t]> (files w))) w,
       Ok tt)
    /\ colnames t = ["kepid"; "APOGEE_ID"; "SDSS-Teff"; "kmag"; "M_K";
                     "Corrected K Excess"; "Prot"; "FE_H"]
    /\ Forall (fun cells => length cells = 8%nat) (table_cells t)
    /\ StronglySorted (row_le "kepid") (rows t)
    /\ Forall (fun r' =>
                 is_Some (int_cell "kepid" r')
                 /\ Exists (fun r => rapid_rotator r /\ agree_on (kept_columns mcq_dwarfs) r r')
                           (rows mcq_dwarfs))
              (rows t)
    /\ Forall (fun r =>
                 rapid_rotator r ->
                 Exists (fun r' => agree_on (kept_columns mcq_dwarfs) r r') (rows t))
              (rows mcq_dwarfs).
Proof.
  intros mcq selected joined HProt Hkepid Hnum Hint Hcols [Hfrom Hto] Hsome.
  pose proof (rapid_period_mask_ok mcq HProt Hnum) as Hmask.
  assert (Hsel_rows : rows selected
                      = filter (fun r => Is_true (selects rapid_period_cut r)) (rows mcq))
    by reflexivity.
  change (colnames selected) with (colnames mcq) in Hfrom, Hto.
  destruct (table_getitem_cols_ok abridged_cols joined Hcols) as [t1 Ht1].
  destruct (table_getitem_cols_inv _ _ _ Ht1) as (Hc1 & Hr1 & _).
  assert (Horigin :
    Forall (fun r' =>
              is_Some (int_cell "kepid" r')
              /\ Exists (fun r => rapid_rotator r /\ agree_on (kept_columns mcq) r r')
                        (rows mcq)) (rows t1)).
  { rewrite Hr1. apply List.Forall_map. eapply Forall_impl; [exact Hfrom|].
    intros r' (r & Hr & Hagree)%Exists_exists.
    rewrite Hsel_rows in Hr. apply list_elem_of_filter in Hr as [Hsel Hr]. split.
    - unfold int_cell. rewrite restrict_lookup by compute_done.
      fold (int_cell "kepid" r'). rewrite (agree_on_int_cell _ _ _ _ Hkepid Hagree).
      rewrite Forall_forall in Hint. by apply Hint.
    - apply Exists_exists. exists r. split; [done|].
      split; [by apply selects_rapid_rotator | by apply agree_on_restrict]. }
  destruct (table_sort_ok "kepid" t1) as [t Ht].
  { rewrite Hc1. compute_done. }
  { eapply Forall_impl; [exact Horigin|]. by intros ? [? _]. }
  destruct (table_sort_inv _ _ _ Ht) as (Hc & Hr & _).
  assert (Hrot : rotator_table rapid_period_mask env = Ok t).
  { unfold rotator_table. change (mcquillan_corrected_splitter env _) with mcq.
    rewrite Hmask. cbn [rbind]. rewrite table_mask_selects. cbn [rbind].
    change (join_by_2MASS_key env _ _ _ _ _) with joined.
    rewrite Ht1. cbn [rbind]. exact Ht. }
  assert (Hall :
    Forall (fun r =>
              rapid_rotator r ->
              Exists (fun r' => agree_on (kept_columns mcq) r r') (rows t))
           (rows mcq)).
  { apply Forall_forall. intros r Hr_in Hrapid.
    assert (Hr_sel : r ∈ rows selected).
    { rewrite Hsel_rows. apply list_elem_of_filter. split; [|done].
      by apply selects_rapid_rotator. }
    rewrite Forall_forall in Hto.
    apply Hto, Exists_exists in Hr_sel as (r' & Hr' & Hagree).
    apply Exists_exists.
    exists (filter (fun kv : string * value => kv.1 ∈ abridged_cols) r'). split.
    - rewrite Hr, merge_sort_Permutation, Hr1.
      apply list_elem_of_In, List.in_map. by apply list_elem_of_In.
    - by apply agree_on_restrict. }
  assert (Hrows : no_rows t = false).
  { apply Exists_exists in Hsome as (r & Hr_in & Hrapid).
    rewrite Forall_forall in Hall. specialize (Hall r Hr_in Hrapid).
    unfold no_rows. destruct (rows t); [by apply Exists_nil in Hall | done]. }
  exists t. rewrite write_rapid_rotator_tables_files, Hrot, Hrows.
  split; [done|]. split; [by rewrite Hc, Hc1|]. split.
  { unfold table_cells. rewrite Hc, Hc1. apply List.Forall_map.
    apply Forall_true. intros r. reflexivity. }
  split.
  { rewrite Hr. apply StronglySorted_merge_sort; apply _. }
  split; [|exact Hall].
  rewrite Hr, merge_sort_Permutation. exact Horigin.
Qed.

Lemma rapid_rotator_table_contents_witness :
  exists t : Table,
    write_rapid_rotator_tables sample_home sample_env sample_world
    = (set_files
         (<[path_str (TABLE_PATH sample_home // "table1.txt") := ascii_file t]>
            (<[path_str (TABLE_PATH sample_home // "table1.tex") :=
                 latex_file rapid_caption rapid_tablefoot t]> (files sample_world)))
         sample_world,
       Ok tt)
    /\ colnames t = ["kepid"; "APOGEE_ID"; "SDSS-Teff"; "kmag"; "M_K";
                     "Corrected K Excess"; "Prot"; "FE_H"]
    /\ Forall (fun cells => length cells = 8%nat) (table_cells t)
    /\ StronglySorted (row_le "kepid") (rows t)
    /\ Forall (fun r' =>
                 is_Some (int_cell "kepid" r')
                 /\ Exists (fun r => rapid_rotator r
                                     /\ agree_on (kept_columns sample_mcq_dwarfs) r r')
                           (rows sample_mcq_dwarfs))
              (rows t)
    /\ Forall (fun r =>
                 rapid_rotator r ->
                 Exists (fun r' => agree_on (kept_columns sample_mcq_dwarfs) r r') (rows t))
              (rows sample_mcq_dwarfs).
Proof.
  apply (rapid_rotator_table_contents sample_home sample_env sample_world).
  - compute_done.
  - compute_done.
  - compute_done.
  - compute_done.
  - compute_done.
  - compute_done.
  - apply Exists_cons_hd. exists (5 # 2)%Q.
    split; [reflexivity|]. split; [reflexivity | by vm_compute].
Defined.

Example rapid_rotator_table_rows :
  exists tex txt,
    files (write_rapid_rotator_tables sample_home sample_env sample_world).1
      !! "/home/user/papers/rotletter18/tables/table1.tex" = Some (TableFile tex)
    /\ files (write_rapid_rotator_tables sample_home sample_env sample_world).1
         !! "/home/user/papers/rotletter18/tables/table1.txt" = Some (TableFile txt)
    /\ w_cells tex = w_cells txt
    /\ w_names txt = ["KIC"; "APOGEE_ID"; "Teff"; "K"; "MK"; "DELTA_K"; "Prot"; "[Fe/H]"]
    /\ map (fun cells => (cells !! 0%nat, cells !! 6%nat)) (w_cells txt)
       = [(Some (VInt 900), Some (VFloat (Finite (61 # 10))));
          (Some (VInt 1200), Some (VFloat (Finite 7)));
          (Some (VInt 7500), Some (VFloat (Finite (5 # 2))))].
Proof. vm_compute. eexists _, _. repeat split; reflexivity. Qed.

Lemma table_writers_rerun_witness :
  (let w1 := (write_rapid_rotator_tables sample_home sample_env sample_stale_world).1 in
   exists t : Table,
     rotator_table rapid_period_mask sample_env = Ok t
     /\ files w1 !! path_str (TABLE_PATH sample_home // "table1.tex")
        = Some (latex_file rapid_caption rapid_tablefoot t)
     /\ files w1 !! path_str (TABLE_PATH sample_home // "table1.txt") = Some (ascii_file t)
     /\ write_rapid_rotator_tables sample_home sample_env w1 = (w1, Ok tt))
  /\ (let w1 := (write_marginal_rotator_tables sample_home sample_env sample_stale_world).1 in
      exists t : Table,
        rotator_table marginal_period_mask sample_env = Ok t
        /\ files w1 !! path_str (TABLE_PATH sample_home // "table2.tex")
           = Some (latex_file marginal_caption marginal_tablefoot t)
        /\ files w1 !! path_str (TABLE_PATH sample_home // "table2.txt") = Some (ascii_file t)
        /\ write_marginal_rotator_tables sample_home sample_env w1 = (w1, Ok tt)).
Proof.
  split; intros w1.
  - apply (proj1 (table_writers_rerun sample_home sample_env sample_stale_world w1)).
    vm_compute. reflexivity.
  - apply (proj2 (table_writers_rerun sample_home sample_env sample_stale_world w1)).
    vm_compute. reflexivity.
Defined.

(** The files left over from an earlier run are replaced. *)
Example stale_table_files_replaced :
  let tex := "/home/user/papers/rotletter18/tables/table1.tex" in
  let txt := "/home/user/papers/rotletter18/tables/table1.txt" in
  let w1 := (write_rapid_rotator_tables sample_home sample_env sample_stale_world).1 in
  files sample_stale_world !! tex = files sample_stale_world !! txt
  /\ (w_names <$> (files sample_stale_world !! tex ≫= fun c =>
                     match c with TableFile t => Some t | PlotFile _ => None end))
     = Some ["KIC"]
  /\ (w_names <$> (files w1 !! tex ≫= fun c =>
                     match c with TableFile t => Some t | PlotFile _ => None end))
     = Some latex_colnames
  /\ (w_names <$> (files w1 !! txt ≫= fun c =>
                     match c with TableFile t => Some t | PlotFile _ => None end))
     = Some ascii_colnames.
Proof. vm_compute. done. Qed.

(** * Further properties *)

(** ** [running_percentile]: shapes, windows and errors *)

Lemma np_zeros_length (n : Z) (arr : list fval) :
  np_zeros n = Ok arr -> Z.of_nat (length arr) = n.
Proof.
  unfold np_zeros. destruct (Z.ltb_spec n 0); [done|].
  intros [= <-]. rewrite length_replicate. lia.
Qed.

Lemma array_setitem_length (arr arr' : list fval) (i : Z) (v : fval) :
  array_setitem arr i v = Ok arr' -> length arr' = length arr.
Proof.
  unfold array_setitem. destruct (_ && _); [|done].
  intros [= <-]. apply length_insert.
Qed.

Lemma array_setitem_nat (arr : list fval) (i : nat) (v : fval) :
  (i < length arr)%nat -> array_setitem arr (Z.of_nat i) v = Ok (<[i := v]> arr).
Proof.
  intros Hi. unfold array_setitem.
  destruct (Z.ltb_spec (Z.of_nat i) 0); [lia|].
  destruct (Z.leb_spec 0 (Z.of_nat i)); [|lia].
  destruct (Z.ltb_spec (Z.of_nat i) (Z.of_nat (length arr))); [|lia].
  cbn. by rewrite Nat2Z.id.
Qed.

Lemma array_setitem_past_end (arr : list fval) (i : nat) (v : fval) :
  (length arr <= i)%nat ->
  array_setitem arr (Z.of_nat i) v = Raise (IndexError "index is out of bounds").
Proof.
  intros Hi. unfold array_setitem.
  destruct (Z.ltb_spec (Z.of_nat i) 0); [lia|].
  destruct (Z.ltb_spec (Z.of_nat i) (Z.of_nat (length arr))); [lia|].
  by rewrite andb_false_r.
Qed.

Lemma running_percentile_step_lengths np_mean np_percentile xvals percentile acc ix acc' :
  running_percentile_step np_mean np_percentile xvals percentile acc ix = Ok acc' ->
  length acc'.1 = length acc.1 /\ length acc'.2 = length acc.2.
Proof.
  destruct acc as [mx my], ix as [s e]. unfold running_percentile_step.
  destruct (array_setitem mx s _) as [mx'|] eqn:Hx; [|done]. cbn [rbind].
  destruct (np_percentile _ _) as [p|]; [|done]. cbn [rbind].
  destruct (array_setitem my s p) as [my'|] eqn:Hy; [|done]. cbn [rbind].
  intros [= <-]. cbn [fst snd].
  split; [by eapply array_setitem_length | by eapply array_setitem_length].
Qed.

Lemma result_fold_lengths np_mean np_percentile xvals percentile l acc acc' :
  result_fold (running_percentile_step np_mean np_percentile xvals percentile) l acc = Ok acc' ->
  length acc'.1 = length acc.1 /\ length acc'.2 = length acc.2.
Proof.
  revert acc. induction l as [|ix l IH]; intros acc; cbn.
  - by intros [= <-].
  - destruct (running_percentile_step _ _ _ _ acc ix) as [acc1|] eqn:Hstep; [|done].
    cbn [rbind]. intros Hfold.
    apply running_percentile_step_lengths in Hstep as [Hx Hy].
    apply IH in Hfold as [Hx' Hy']. split; congruence.
Qed.

(** X1: a successful call returns arrays of [len(xvals) - size] and
    [len(yvals) - size] entries. *)
Theorem running_percentile_lengths np_mean np_percentile
    (xvals yvals : list fval) (size : Z) (percentile : fval) (median_xs median_ys : list fval) :
  running_percentile np_mean np_percentile xvals yvals size percentile
  = Ok (median_xs, median_ys) ->
  Z.of_nat (length median_xs) = Z.of_nat (length xvals) - size
  /\ Z.of_nat (length median_ys) = Z.of_nat (length yvals) - size.
Proof.
  unfold running_percentile.
  destruct (np_zeros (Z.of_nat (length xvals) - size)) as [mx|] eqn:Hx; [|done].
  cbn [rbind].
  destruct (np_zeros (Z.of_nat (length yvals) - size)) as [my|] eqn:Hy; [|done].
  cbn [rbind].
  intros Hfold. apply result_fold_lengths in Hfold as [Hlx Hly]. cbn [fst snd] in *.
  apply np_zeros_length in Hx, Hy. split; congruence.
Qed.

Lemma running_percentile_lengths_witness :
  Z.of_nat (length [Finite (3 # 2); Finite 3]) = Z.of_nat 4 - 2
  /\ Z.of_nat (length [Finite 1; Finite 2; Finite 0]) = Z.of_nat 5 - 2.
Proof.
  apply (running_percentile_lengths sample_np_mean sample_np_percentile
           [Finite 1; Finite 2; Finite 4; Finite 8]
           [Finite 5; NaN; Finite 7; PosInf; Finite 9] 2 (Finite (1 # 2))).
  vm_compute. reflexivity.
Defined.

Lemma result_fold_ext {A B} (f g : A -> B -> result A) (l : list B) (a : A) :
  (forall a' b, b ∈ l -> f a' b = g a' b) ->
  result_fold f l a = result_fold g l a.
Proof.
  revert a. induction l as [|b l IH]; intros a Hfg; [done|].
  cbn. rewrite Hfg by left. destruct (g a b) as [a1|]; [|done]. cbn.
  apply IH. intros a' b' Hb'. apply Hfg. by right.
Qed.

Lemma slice_bound_range (len i : Z) : 0 <= len -> 0 <= slice_bound len i <= len.
Proof. intros Hlen. unfold slice_bound. destruct (Z.ltb_spec i 0); lia. Qed.

Lemma slice_bound_below (len i : Z) : 0 < len -> i < len -> slice_bound len i <= len - 1.
Proof. intros Hlen Hi. unfold slice_bound. destruct (Z.ltb_spec i 0); lia. Qed.

(** A slice that stops before the last element does not see it. *)
Lemma py_slice_before_last (xs : list fval) (a b : fval) (start stop : Z) :
  stop <= Z.of_nat (length xs) ->
  py_slice (xs ++ [a]) start stop = py_slice (xs ++ [b]) start stop.
Proof.
  intros Hstop. unfold py_slice. rewrite !length_app. cbn [length].
  set (len := Z.of_nat (length xs + 1)).
  assert (Hlen : len = Z.of_nat (length xs) + 1) by lia.
  pose proof (slice_bound_range len start ltac:(lia)) as Hs.
  pose proof (slice_bound_below len stop ltac:(lia) ltac:(lia)) as He.
  set (s := slice_bound len start) in *. set (e := slice_bound len stop) in *.
  destruct (Z.le_gt_cases e s) as [Hes|Hes].
  - replace (Z.to_nat (e - s)) with 0%nat by lia. done.
  - rewrite !drop_app_le by lia.
    rewrite !take_app_le by (rewrite length_drop; lia). done.
Qed.

(** X2: the last sample of [xvals] never enters a window: replacing it
    changes neither the two arrays nor the exception. *)
Theorem running_percentile_ignores_last_x np_mean np_percentile
    (xs yvals : list fval) (a b : fval) (size : Z) (percentile : fval) :
  running_percentile np_mean np_percentile (xs ++ [a]) yvals size percentile
  = running_percentile np_mean np_percentile (xs ++ [b]) yvals size percentile.
Proof.
  unfold running_percentile. rewrite !length_app. cbn [length].
  destruct (np_zeros (Z.of_nat (length xs + 1) - size)) as [mx|]; [|done]. cbn [rbind].
  destruct (np_zeros (Z.of_nat (length yvals) - size)) as [my|]; [|done]. cbn [rbind].
  apply result_fold_ext. intros [mx' my'] [s e] Hin.
  apply elem_of_zip_r in Hin. unfold py_range in Hin. apply elem_of_seqZ in Hin.
  unfold running_percentile_step.
  by rewrite (py_slice_before_last xs a b s e) by lia.
Qed.

Example running_percentile_last_sample_unused :
  running_percentile sample_np_mean sample_np_percentile
    [Finite 1; Finite 2; Finite 4; Finite 8] [Finite 0; Finite 0; Finite 0; Finite 0]
    2 (Finite (1 # 2))
  = running_percentile sample_np_mean sample_np_percentile
    [Finite 1; Finite 2; Finite 4; NaN] [Finite 0; Finite 0; Finite 0; Finite 0]
    2 (Finite (1 # 2)).
Proof. vm_compute. reflexivity. Qed.

Lemma zip_fmap_same {A B C} (f : A -> B) (g : A -> C) (l : list A) :
  zip (f <$> l) (g <$> l) = (fun x => (f x, g x)) <$> l.
Proof. induction l as [|x l IH]; [done|]. cbn. by rewrite IH. Qed.

(** The index pairs of the loop: [(i, size + i)] for [i] below
    [len(xvals) - size]. *)
Lemma running_percentile_indices (len size : Z) :
  zip (py_range 0 (len - size)) (py_range size len)
  = (fun i : nat => (Z.of_nat i, Z.of_nat i + size)) <$> seq 0 (Z.to_nat (len - size)).
Proof.
  unfold py_range, seqZ. rewrite Z.sub_0_r.
  rewrite <- zip_fmap_same. f_equal.
  apply list_fmap_ext. intros _ i _. lia.
Qed.

Lemma py_slice_window (xvals : list fval) (size : Z) (i : nat) :
  0 <= size ->
  Z.of_nat i + size <= Z.of_nat (length xvals) ->
  py_slice xvals (Z.of_nat i) (Z.of_nat i + size) = window xvals size i.
Proof.
  intros Hsize Hi. unfold py_slice, window, slice_bound.
  destruct (Z.ltb_spec (Z.of_nat i) 0); [lia|].
  destruct (Z.ltb_spec (Z.of_nat i + size) 0); [lia|].
  rewrite !Z.min_l by lia. rewrite Nat2Z.id. f_equal. lia.
Qed.

Lemma take_succ_insert (arr : list fval) (k : nat) (v : fval) :
  (k < length arr)%nat -> take (S k) (<[k := v]> arr) = take k arr ++ [v].
Proof.
  intros Hk. destruct (lookup_lt_is_Some_2 arr k Hk) as [x Hx].
  rewrite take_insert_lt by lia. rewrite (take_S_r _ _ _ Hx).
  rewrite insert_app_r_alt by (rewrite length_take; lia).
  rewrite length_take, Nat.min_l by lia. by rewrite Nat.sub_diag.
Qed.

(** Filling the entries [k .. k + j - 1] one after the other. *)
Lemma running_percentile_fill np_mean np_percentile (fy : nat -> fval)
    (xvals : list fval) (size : Z) (percentile : fval) (j k : nat) (mx my : list fval) :
  0 <= size ->
  Z.of_nat (k + j) + size <= Z.of_nat (length xvals) ->
  (k + j <= length mx)%nat ->
  (k + j <= length my)%nat ->
  (forall i, (k <= i < k + j)%nat -> np_percentile (window xvals size i) percentile = Ok (fy i)) ->
  result_fold (running_percentile_step np_mean np_percentile xvals percentile)
    ((fun i : nat => (Z.of_nat i, Z.of_nat i + size)) <$> seq k j) (mx, my)
  = Ok (take k mx ++ ((fun i => np_mean (window xvals size i)) <$> seq k j) ++ drop (k + j) mx,
        take k my ++ (fy <$> seq k j) ++ drop (k + j) my).
Proof.
  intros Hsize. revert k mx my.
  induction j as [|j IH]; intros k mx my Hx Hmx Hmy Hperc.
  - cbn. rewrite Nat.add_0_r. by rewrite !take_drop.
  - cbn [seq fmap list_fmap result_fold].
    unfold running_percentile_step at 1.
    rewrite py_slice_window by lia.
    rewrite array_setitem_nat by lia. cbn [rbind].
    rewrite Hperc by lia. cbn [rbind].
    rewrite array_setitem_nat by lia. cbn [rbind].
    rewrite IH; [|lia|rewrite length_insert; lia|rewrite length_insert; lia|intros; apply Hperc; lia].
    rewrite !take_succ_insert by lia.
    rewrite !drop_insert_lt by lia.
    replace (S k + j)%nat with (k + S j)%nat by lia.
    by rewrite <- !app_assoc.
Qed.

(** X3: for a window size between 0 and [len(xvals)], a [yvals] at least
    as long as [xvals] and a percentile that numpy can take of every
    window, entry [i] of the first array is the mean of the window of
    [xvals] that starts at [i], entry [i] of the second array is the
    percentile of that same window of [xvals], and the entries of the
    second array past [len(xvals) - size] stay zero. *)
Theorem running_percentile_windows_spec np_mean np_percentile (fy : nat -> fval)
    (xvals yvals : list fval) (size : Z) (percentile : fval) :
  let n := (length xvals - Z.to_nat size)%nat in
  0 <= size <= Z.of_nat (length xvals) ->
  (length xvals <= length yvals)%nat ->
  (forall i, (i < n)%nat -> np_percentile (window xvals size i) percentile = Ok (fy i)) ->
  running_percentile np_mean np_percentile xvals yvals size percentile
  = Ok ((fun i => np_mean (window xvals size i)) <$> seq 0 n,
        (fy <$> seq 0 n) ++ replicate (length yvals - length xvals) (Finite 0)).
Proof.
  intros n Hsize Hlen Hperc. unfold running_percentile.
  unfold np_zeros.
  destruct (Z.ltb_spec (Z.of_nat (length xvals) - size) 0); [lia|]. cbn [rbind].
  destruct (Z.ltb_spec (Z.of_nat (length yvals) - size) 0); [lia|]. cbn [rbind].
  rewrite running_percentile_indices.
  replace (Z.to_nat (Z.of_nat (length xvals) - size)) with n by lia.
  rewrite (running_percentile_fill _ _ fy); [|lia|lia|rewrite length_replicate; lia|
    rewrite length_replicate; lia|intros; apply Hperc; lia].
  cbn [Nat.add]. rewrite !drop_replicate, !take_0, Nat.sub_diag. cbn [replicate app].
  rewrite app_nil_r.
  replace (Z.to_nat (Z.of_nat (length yvals) - size) - n)%nat
    with (length yvals - length xvals)%nat by lia.
  done.
Qed.

Lemma running_percentile_windows_spec_witness :
  running_percentile sample_np_mean sample_np_percentile
    [Finite 1; Finite 2; Finite 4; Finite 8] [Finite 5; NaN; Finite 7; PosInf; Finite 9]
    2 (Finite (1 # 2))
  = Ok ([Finite (3 # 2); Finite 3], [Finite 1; Finite 2; Finite 0]).
Proof.
  apply (running_percentile_windows_spec sample_np_mean sample_np_percentile
           (fun i => nth i [Finite 1; Finite 2] NaN)
           [Finite 1; Finite 2; Finite 4; Finite 8]
           [Finite 5; NaN; Finite 7; PosInf; Finite 9] 2 (Finite (1 # 2))).
  - vm_compute. split; discriminate.
  - vm_compute. lia.
  - intros [|[|i]] Hi; [reflexivity | reflexivity | vm_compute in Hi; lia].
Defined.

Lemma result_fold_app {A B} (f : A -> B -> result A) (l1 l2 : list B) (a : A) :
  result_fold f (l1 ++ l2) a = rbind (result_fold f l1 a) (result_fold f l2).
Proof.
  revert a. induction l1 as [|b l1 IH]; intros a; [done|].
  cbn. destruct (f a b) as [a1|]; [|done]. cbn. apply IH.
Qed.

(** X4: a window size larger than either input makes [np.zeros] fail
    before any window is looked at. *)
Theorem running_percentile_size_too_large np_mean np_percentile
    (xvals yvals : list fval) (size : Z) (percentile : fval) :
  Z.of_nat (length xvals) < size \/ Z.of_nat (length yvals) < size ->
  running_percentile np_mean np_percentile xvals yvals size percentile
  = Raise (ValueError "negative dimensions are not allowed").
Proof.
  intros Hsize. unfold running_percentile, np_zeros.
  destruct (Z.ltb_spec (Z.of_nat (length xvals) - size) 0); [done|]. cbn [rbind].
  destruct (Z.ltb_spec (Z.of_nat (length yvals) - size) 0); [done|]. lia.
Qed.

Lemma running_percentile_size_too_large_witness :
  running_percentile sample_np_mean sample_np_percentile
    [Finite 1; Finite 2; Finite 4] [Finite 1; Finite 2] 3 (Finite (1 # 2))
  = Raise (ValueError "negative dimensions are not allowed").
Proof.
  apply (running_percentile_size_too_large sample_np_mean sample_np_percentile
           [Finite 1; Finite 2; Finite 4] [Finite 1; Finite 2] 3 (Finite (1 # 2))).
  right. vm_compute. reflexivity.
Defined.

(** X5: when [yvals] is shorter than [xvals] (and not shorter than the
    window), the loop runs out of the second array: the call raises
    [IndexError] at index [len(yvals) - size], provided numpy can take the
    percentile of the windows up to there. *)
Theorem running_percentile_yvals_too_short np_mean np_percentile (fy : nat -> fval)
    (xvals yvals : list fval) (size : Z) (percentile : fval) :
  0 <= size <= Z.of_nat (length yvals) ->
  (length yvals < length xvals)%nat ->
  (forall i, (i <= length yvals - Z.to_nat size)%nat ->
             np_percentile (window xvals size i) percentile = Ok (fy i)) ->
  running_percentile np_mean np_percentile xvals yvals size percentile
  = Raise (IndexError "index is out of bounds").
Proof.
  intros Hsize Hlen Hperc. unfold running_percentile, np_zeros.
  destruct (Z.ltb_spec (Z.of_nat (length xvals) - size) 0); [lia|]. cbn [rbind].
  destruct (Z.ltb_spec (Z.of_nat (length yvals) - size) 0); [lia|]. cbn [rbind].
  rewrite running_percentile_indices.
  set (n := Z.to_nat (Z.of_nat (length xvals) - size)).
  set (m := Z.to_nat (Z.of_nat (length yvals) - size)).
  assert (Hm : m = (length yvals - Z.to_nat size)%nat) by lia.
  assert (Hseq : seq 0 n = seq 0 m ++ m :: seq (S m) (n - S m)).
  { transitivity (seq 0 (m + S (n - S m))); [f_equal; lia|]. by rewrite seq_app. }
  rewrite Hseq, fmap_app, result_fold_app.
  rewrite (running_percentile_fill _ _ fy); [|lia|lia|rewrite length_replicate; lia|
    rewrite length_replicate; lia|intros; apply Hperc; lia].
  cbn [rbind Nat.add seq fmap list_fmap result_fold].
  unfold running_percentile_step at 1.
  rewrite py_slice_window by lia.
  rewrite array_setitem_nat
    by (rewrite !length_app, length_take, length_fmap, length_seq, length_drop,
          length_replicate; lia).
  cbn [rbind]. rewrite Hperc by lia. cbn [rbind].
  rewrite array_setitem_past_end
    by (rewrite !length_app, length_take, length_fmap, length_seq, length_drop,
          length_replicate; lia).
  done.
Qed.

Lemma running_percentile_yvals_too_short_witness :
  running_percentile sample_np_mean sample_np_percentile
    [Finite 1; Finite 2; Finite 4; Finite 8] [Finite 5; NaN; Finite 7] 2 (Finite (1 # 2))
  = Raise (IndexError "index is out of bounds").
Proof.
  apply (running_percentile_yvals_too_short sample_np_mean sample_np_percentile
           (fun i => nth i [Finite 1; Finite 2] NaN)
           [Finite 1; Finite 2; Finite 4; Finite 8] [Finite 5; NaN; Finite 7]
           2 (Finite (1 # 2))).
  - vm_compute. split; discriminate.
  - vm_compute. lia.
  - intros [|[|i]] Hi; [reflexivity | reflexivity | vm_compute in Hi; lia].
Defined.

(** ** The scatter loop: the two lists grow together *)

Lemma scatter_loop_grows simulate (sigmas : list Z) real measured w w' real' measured' :
  scatter_loop simulate sigmas (real, measured) w = (w', Ok (real', measured')) ->
  exists k : nat,
    (k <= length sigmas)%nat
    /\ length real' = (length real + k)%nat
    /\ length measured' = (length measured + k)%nat.
Proof.
  revert real measured w. induction sigmas as [|sig rest IH]; intros real measured w.
  - cbn. intros [= <- <- <-]. exists 0%nat. cbn. lia.
  - change (scatter_loop simulate (sig :: rest) (real, measured))
      with (bind (scatter_iteration simulate sig (real, measured))
                 (fun sc => scatter_loop simulate rest sc)).
    destruct (simulate sig w) as [w1 [run|e]] eqn:Hsim.
    + pose proof (scatter_iteration_run _ _ real measured _ _ _ Hsim) as Hit.
      destruct (converged run); rewrite (bind_ok _ _ _ _ _ Hit); intros Hloop;
        apply IH in Hloop as (k & Hk & Hr & Hm).
      * exists (S k). rewrite !length_app in Hr, Hm. cbn in *. lia.
      * exists k. cbn. lia.
    + rewrite (bind_raise _ _ _ _ _ (scatter_iteration_raise _ _ _ _ _ _ Hsim)). done.
Qed.

(** X6: when the scatter simulation of [binary_fit] ends normally, the
    lists [real_scatter] and [measured_scatter] that go into the linear
    fit have the same length, and at most one entry per simulated width
    (100 of them). *)
Theorem binary_fit_scatter_lengths simulate (w w' : World) (real measured : list fval) :
  binary_fit_scatter simulate w = (w', Ok (real, measured)) ->
  length real = length measured /\ (length real <= 100)%nat.
Proof.
  unfold binary_fit_scatter. unfold bind at 1. cbn [np_random_seed].
  intros Hloop. apply scatter_loop_grows in Hloop as (k & Hk & Hr & Hm).
  unfold py_range in Hk. rewrite length_seqZ in Hk. cbn in *. lia.
Qed.

Lemma binary_fit_scatter_lengths_witness :
  let scatter := match (binary_fit_scatter sample_simulate sample_world).2 with
                 | Ok scatter => scatter
                 | Raise _ => ([], [])
                 end in
  length scatter.1 = length scatter.2 /\ (length scatter.1 <= 100)%nat.
Proof.
  intros scatter.
  apply (binary_fit_scatter_lengths sample_simulate sample_world
           (binary_fit_scatter sample_simulate sample_world).1 scatter.1 scatter.2).
  vm_compute. reflexivity.
Defined.

(** ** The marginal-rotator table *)

Lemma marginal_period_cut_iff (p : fval) :
  marginal_period_cut p = true <-> exists q : Q, p = Finite q /\ (7 < q)%Q /\ (q < 11)%Q.
Proof.
  unfold marginal_period_cut, float_gt. split.
  - destruct p as [| | |q]; cbn; try done.
    rewrite andb_true_iff, !Qlt_bool_iff. eauto.
  - intros (q & -> & Hlo & Hhi). cbn.
    rewrite andb_true_iff, !Qlt_bool_iff. done.
Qed.

Lemma selects_marginal_rotator (r : gmap string value) :
  Is_true (selects marginal_period_cut r) <-> marginal_rotator r.
Proof.
  unfold selects, marginal_rotator. rewrite Is_true_true. split.
  - destruct (row_period r) as [p|]; [|done].
    rewrite marginal_period_cut_iff. intros (q & -> & H). eauto.
  - intros (q & -> & H). apply marginal_period_cut_iff. eauto.
Qed.

(** Select, join, project, sort, for any cut on the period. *)
Lemma rotator_table_rows period_mask (cut : fval -> bool) env :
  let mcq_dwarfs := mcquillan_corrected_splitter env ["Dwarfs"; "Right Statistics Teff"] in
  let selected := select_rows cut mcq_dwarfs in
  let joined := join_by_2MASS_key env selected (read_dr14_allStar env)
                  "tm_designation" "APOGEE_ID" "left" in
  period_mask mcq_dwarfs = Ok (map (selects cut) (rows mcq_dwarfs)) ->
  "kepid" ∈ colnames mcq_dwarfs ->
  Forall (fun r => is_Some (int_cell "kepid" r)) (rows mcq_dwarfs) ->
  Forall (fun c => c ∈ colnames joined) abridged_cols ->
  left_join_of selected joined ->
  exists t : Table,
    rotator_table period_mask env = Ok t
    /\ colnames t = abridged_cols
    /\ StronglySorted (row_le "kepid") (rows t)
    /\ Forall (fun r' =>
                 is_Some (int_cell "kepid" r')
                 /\ Exists (fun r => Is_true (selects cut r)
                                     /\ agree_on (kept_columns mcq_dwarfs) r r')
                           (rows mcq_dwarfs))
              (rows t)
    /\ Forall (fun r =>
                 Is_true (selects cut r) ->
                 Exists (fun r' => agree_on (kept_columns mcq_dwarfs) r r') (rows t))
              (rows mcq_dwarfs).
Proof.
  intros mcq selected joined Hmask Hkepid Hint Hcols [Hfrom Hto].
  change (colnames selected) with (colnames mcq) in Hfrom, Hto.
  change (rows selected) with (filter (fun r => Is_true (selects cut r)) (rows mcq))
    in Hfrom, Hto.
  destruct (table_getitem_cols_ok abridged_cols joined Hcols) as [t1 Ht1].
  destruct (table_getitem_cols_inv _ _ _ Ht1) as (Hc1 & Hr1 & _).
  assert (Horigin :
    Forall (fun r' =>
              is_Some (int_cell "kepid" r')
              /\ Exists (fun r => Is_true (selects cut r)
                                  /\ agree_on (kept_columns mcq) r r')
                        (rows mcq)) (rows t1)).
  { rewrite Hr1. apply List.Forall_map. eapply Forall_impl; [exact Hfrom|].
    intros r' (r & Hr & Hagree)%Exists_exists.
    apply list_elem_of_filter in Hr as [Hsel Hr]. split.
    - unfold int_cell. rewrite restrict_lookup by compute_done.
      fold (int_cell "kepid" r'). rewrite (agree_on_int_cell _ _ _ _ Hkepid Hagree).
      rewrite Forall_forall in Hint. by apply Hint.
    - apply Exists_exists. exists r. split; [done|].
      split; [done | by apply agree_on_restrict]. }
  destruct (table_sort_ok "kepid" t1) as [t Ht].
  { rewrite Hc1. compute_done. }
  { eapply Forall_impl; [exact Horigin|]. by intros ? [? _]. }
  destruct (table_sort_inv _ _ _ Ht) as (Hc & Hr & _).
  exists t. split.
  { unfold rotator_table. change (mcquillan_corrected_splitter env _) with mcq.
    rewrite Hmask. cbn [rbind]. rewrite table_mask_selects. cbn [rbind].
    change (join_by_2MASS_key env _ _ _ _ _) with joined.
    rewrite Ht1. cbn [rbind]. exact Ht. }
  split; [by rewrite Hc, Hc1|]. split.
  { rewrite Hr. apply StronglySorted_merge_sort; apply _. }
  split.
  { rewrite Hr, merge_sort_Permutation. exact Horigin. }
  apply Forall_forall. intros r Hr_in Hsel.
  assert (Hr_sel : r ∈ filter (fun r => Is_true (selects cut r)) (rows mcq))
    by (by apply list_elem_of_filter).
  rewrite Forall_forall in Hto.
  apply Hto, Exists_exists in Hr_sel as (r' & Hr' & Hagree).
  apply Exists_exists.
  exists (filter (fun kv : string * value => kv.1 ∈ abridged_cols) r'). split.
  - rewrite Hr, merge_sort_Permutation, Hr1.
    apply list_elem_of_In, List.in_map. by apply list_elem_of_In.
  - by apply agree_on_restrict.
Qed.

(** X7: under the same conditions on the catalogs as for the rapid
    rotators, and with at least one star of the sample between 7 and 11
    days, [write_marginal_rotator_tables] succeeds and writes to
    [table2.txt] the eight columns of the stars whose period is above 7 and
    below 11 days, sorted by ascending [kepid]: every row carries such a
    star and every such star has a row. *)
Theorem marginal_rotator_table_contents home env (w : World) :
  let mcq_dwarfs := mcquillan_corrected_splitter env ["Dwarfs"; "Right Statistics Teff"] in
  let selected := select_rows marginal_period_cut mcq_dwarfs in
  let joined := join_by_2MASS_key env selected (read_dr14_allStar env)
                  "tm_designation" "APOGEE_ID" "left" in
  "Prot" ∈ colnames mcq_dwarfs ->
  "kepid" ∈ colnames mcq_dwarfs ->
  Forall (fun r => is_Some (row_period r)) (rows mcq_dwarfs) ->
  Forall (fun r => is_Some (int_cell "kepid" r)) (rows mcq_dwarfs) ->
  Forall (fun c => c ∈ colnames joined) abridged_cols ->
  left_join_of selected joined ->
  Exists marginal_rotator (rows mcq_dwarfs) ->
  exists t : Table,
    write_marginal_rotator_tables home env w
    = (set_files
         (<[path_str (TABLE_PATH home // "table2.txt") := ascii_file t]>
            (<[path_str (TABLE_PATH home // "table2.tex") :=
                 latex_file marginal_caption marginal_tablefoot t]> (files w))) w,
       Ok tt)
    /\ colnames t = ["kepid"; "APOGEE_ID"; "SDSS-Teff"; "kmag"; "M_K";
                     "Corrected K Excess"; "Prot"; "FE_H"]
    /\ StronglySorted (row_le "kepid") (rows t)
    /\ Forall (fun r' =>
                 is_Some (int_cell "kepid" r')
                 /\ Exists (fun r => marginal_rotator r
                                     /\ agree_on (kept_columns mcq_dwarfs) r r')
                           (rows mcq_dwarfs))
              (rows t)
    /\ Forall (fun r =>
                 marginal_rotator r ->
                 Exists (fun r' => agree_on (kept_columns mcq_dwarfs) r r') (rows t))
              (rows mcq_dwarfs).
Proof.
  intros mcq selected joined HProt Hkepid Hnum Hint Hcols Hjoin Hsome.
  destruct (rotator_table_rows marginal_period_mask marginal_period_cut env
              (marginal_period_mask_ok mcq HProt Hnum) Hkepid Hint Hcols Hjoin)
    as (t & Hrot & Hc & Hsorted & Hfrom & Hto).
  assert (Hrows : no_rows t = false).
  { apply Exists_exists in Hsome as (r & Hr_in & Hm).
    rewrite Forall_forall in Hto.
    specialize (Hto r Hr_in (proj2 (selects_marginal_rotator r) Hm)).
    unfold no_rows. destruct (rows t); [by apply Exists_nil in Hto | done]. }
  exists t. rewrite write_marginal_rotator_tables_files, Hrot, Hrows.
  split; [done|]. split; [done|]. split; [done|]. split.
  - eapply Forall_impl; [exact Hfrom|]. intros r' [Hk Hex]. split; [done|].
    eapply Exists_impl; [exact Hex|]. intros r [Hsel Hagree].
    split; [by apply selects_marginal_rotator | done].
  - eapply Forall_impl; [exact Hto|]. intros r Hex Hm.
    by apply Hex, selects_marginal_rotator.
Qed.

Lemma marginal_rotator_table_contents_witness :
  exists t : Table,
    write_marginal_rotator_tables sample_home sample_env sample_world
    = (set_files
         (<[path_str (TABLE_PATH sample_home // "table2.txt") := ascii_file t]>
            (<[path_str (TABLE_PATH sample_home // "table2.tex") :=
                 latex_file marginal_caption marginal_tablefoot t]> (files sample_world)))
         sample_world,
       Ok tt)
    /\ colnames t = ["kepid"; "APOGEE_ID"; "SDSS-Teff"; "kmag"; "M_K";
                     "Corrected K Excess"; "Prot"; "FE_H"]
    /\ StronglySorted (row_le "kepid") (rows t)
    /\ Forall (fun r' =>
                 is_Some (int_cell "kepid" r')
                 /\ Exists (fun r => marginal_rotator r
                                     /\ agree_on (kept_columns sample_mcq_dwarfs) r r')
                           (rows sample_mcq_dwarfs))
              (rows t)
    /\ Forall (fun r =>
                 marginal_rotator r ->
                 Exists (fun r' => agree_on (kept_columns sample_mcq_dwarfs) r r') (rows t))
              (rows sample_mcq_dwarfs).
Proof.
  apply (marginal_rotator_table_contents sample_home sample_env sample_world).
  - compute_done.
  - compute_done.
  - compute_done.
  - compute_done.
  - compute_done.
  - compute_done.
  - do 3 apply Exists_cons_tl. apply Exists_cons_hd. exists (17 # 2)%Q.
    split; [reflexivity|]. split; reflexivity.
Defined.

(** ** The two writers and the file system *)

(** X8: the LaTeX file of each writer holds the first five rows of the
    full table the same run writes to the [.txt] file (all of them when
    there are fewer), under the LaTeX column names. *)
Theorem latex_table_is_head home env (w w1 : World) :
  (write_rapid_rotator_tables home env w = (w1, Ok tt) ->
   exists tex txt : WrittenTable,
     files w1 !! path_str (TABLE_PATH home // "table1.tex") = Some (TableFile tex)
     /\ files w1 !! path_str (TABLE_PATH home // "table1.txt") = Some (TableFile txt)
     /\ w_cells tex = take 5 (w_cells txt)
     /\ w_names tex = latex_colnames /\ w_names txt = ascii_colnames)
  /\ (write_marginal_rotator_tables home env w = (w1, Ok tt) ->
      exists tex txt : WrittenTable,
        files w1 !! path_str (TABLE_PATH home // "table2.tex") = Some (TableFile tex)
        /\ files w1 !! path_str (TABLE_PATH home // "table2.txt") = Some (TableFile txt)
        /\ w_cells tex = take 5 (w_cells txt)
        /\ w_names tex = latex_colnames /\ w_names txt = ascii_colnames).
Proof.
  split.
  - intros (t & _ & _ & ->)%write_rapid_rotator_tables_ok.
    eexists _, _. cbn [set_files files].
    rewrite lookup_insert_ne by (by apply table_paths_distinct).
    rewrite !lookup_insert_eq. split; [reflexivity|]. split; [reflexivity|].
    cbn [w_cells w_names]. split; [|done].
    unfold table_cells, table_head. cbn [rows colnames].
    symmetry. apply List.firstn_map.
  - intros (t & _ & _ & ->)%write_marginal_rotator_tables_ok.
    eexists _, _. cbn [set_files files].
    rewrite lookup_insert_ne by (by apply table_paths_distinct).
    rewrite !lookup_insert_eq. split; [reflexivity|]. split; [reflexivity|].
    cbn [w_cells w_names]. split; [|done].
    unfold table_cells, table_head. cbn [rows colnames].
    symmetry. apply List.firstn_map.
Qed.

Lemma latex_table_is_head_witness :
  let w1 := (write_rapid_rotator_tables sample_home sample_env sample_world).1 in
  exists tex txt : WrittenTable,
    files w1 !! path_str (TABLE_PATH sample_home // "table1.tex") = Some (TableFile tex)
    /\ files w1 !! path_str (TABLE_PATH sample_home // "table1.txt") = Some (TableFile txt)
    /\ w_cells tex = take 5 (w_cells txt)
    /\ w_names tex = latex_colnames /\ w_names txt = ascii_colnames.
Proof.
  intros w1.
  apply (proj1 (latex_table_is_head sample_home sample_env sample_world w1)).
  vm_compute. reflexivity.
Defined.

(** X9: when no star of the sample has a period above 1.5 and at most 7
    days, [write_rapid_rotator_tables] writes [table1.tex], header and no
    rows, and then raises [ValueError] in the fixed-width writer:
    [table1.txt] is left as it was. *)
Theorem rapid_writer_empty_selection home env (w : World) :
  let mcq_dwarfs := mcquillan_corrected_splitter env ["Dwarfs"; "Right Statistics Teff"] in
  let selected := select_rows rapid_period_cut mcq_dwarfs in
  let joined := join_by_2MASS_key env selected (read_dr14_allStar env)
                  "tm_designation" "APOGEE_ID" "left" in
  let tex := path_str (TABLE_PATH home // "table1.tex") in
  let txt := path_str (TABLE_PATH home // "table1.txt") in
  "Prot" ∈ colnames mcq_dwarfs ->
  Forall (fun r => is_Some (row_period r)) (rows mcq_dwarfs) ->
  Forall (fun c => c ∈ colnames joined) abridged_cols ->
  left_join_of selected joined ->
  Forall (fun r => ~ rapid_rotator r) (rows mcq_dwarfs) ->
  write_rapid_rotator_tables home env w
  = (set_files
       (<[tex := latex_file rapid_caption rapid_tablefoot
                   (mkTable abridged_cols [] (meta_comments joined))]> (files w)) w,
     Raise (ValueError "max() arg is an empty sequence"))
  /\ files (write_rapid_rotator_tables home env w).1 !! txt = files w !! txt.
Proof.
  intros mcq selected joined tex txt HProt Hnum Hcols [Hfrom _] Hnone.
  assert (Hsel : rows selected = []).
  { unfold selected, select_rows. cbn [rows]. revert Hnone. generalize (rows mcq).
    induction 1 as [|r l Hr _ IH]; [done|].
    rewrite filter_cons_False by (by rewrite selects_rapid_rotator). exact IH. }
  assert (Hjoined : rows joined = []).
  { rewrite Hsel in Hfrom. destruct (rows joined) as [|r' l]; [done|].
    inversion Hfrom as [|? ? Hex _]; subst. by apply Exists_nil in Hex. }
  destruct (table_getitem_cols_ok abridged_cols joined Hcols) as [t1 Ht1].
  destruct (table_getitem_cols_inv _ _ _ Ht1) as (Hc1 & Hr1 & Hm1).
  rewrite Hjoined in Hr1. cbn [map] in Hr1.
  assert (Hrot : rotator_table rapid_period_mask env
                 = Ok (mkTable abridged_cols [] (meta_comments joined))).
  { unfold rotator_table. change (mcquillan_corrected_splitter env _) with mcq.
    rewrite rapid_period_mask_ok by done. cbn [rbind].
    rewrite table_mask_selects. cbn [rbind].
    change (join_by_2MASS_key env _ _ _ _ _) with joined.
    rewrite Ht1. cbn [rbind]. unfold table_sort.
    rewrite Hc1, Hr1, Hm1. reflexivity. }
  assert (Hrun : write_rapid_rotator_tables home env w
                 = (set_files
                      (<[tex := latex_file rapid_caption rapid_tablefoot
                                  (mkTable abridged_cols [] (meta_comments joined))]>
                         (files w)) w,
                    Raise (ValueError "max() arg is an empty sequence"))).
  { by rewrite write_rapid_rotator_tables_files, Hrot. }
  split; [exact Hrun|]. rewrite Hrun. cbn [fst set_files files].
  apply lookup_insert_ne. by apply table_paths_distinct.
Qed.

Lemma rapid_writer_empty_selection_witness :
  write_rapid_rotator_tables sample_home sample_env_slow sample_stale_world
  = (set_files
       (<[path_str (TABLE_PATH sample_home // "table1.tex") :=
            latex_file rapid_caption rapid_tablefoot (mkTable abridged_cols [] [])]>
          (files sample_stale_world)) sample_stale_world,
     Raise (ValueError "max() arg is an empty sequence"))
  /\ files (write_rapid_rotator_tables sample_home sample_env_slow sample_stale_world).1
       !! path_str (TABLE_PATH sample_home // "table1.txt")
     = files sample_stale_world !! path_str (TABLE_PATH sample_home // "table1.txt").
Proof.
  apply (rapid_writer_empty_selection sample_home sample_env_slow sample_stale_world).
  - compute_done.
  - compute_done.
  - compute_done.
  - compute_done.
  - repeat constructor.
    + intros (q & [= <-] & Hlo & _). by vm_compute in Hlo.
    + intros (q & [= <-] & _ & Hhi). by vm_compute in Hhi.
Defined.

Lemma insert_pairs_commute (a b c d : string) (x y z u : FileContent)
    (m : gmap string FileContent) :
  a <> c -> a <> d -> b <> c -> b <> d ->
  <[d := u]> (<[c := z]> (<[b := y]> (<[a := x]> m)))
  = <[b := y]> (<[a := x]> (<[d := u]> (<[c := z]> m))).
Proof.
  intros Hac Had Hbc Hbd. apply map_eq. intros p. rewrite !lookup_insert.
  repeat case_decide; congruence.
Qed.

(** X11: the two writers do not disturb each other: when both succeed, the
    world after running them is the same in either order. *)
Theorem table_writers_commute home env (w : World) :
  (write_rapid_rotator_tables home env w).2 = Ok tt ->
  (write_marginal_rotator_tables home env w).2 = Ok tt ->
  (write_rapid_rotator_tables home env ;;; write_marginal_rotator_tables home env) w
  = (write_marginal_rotator_tables home env ;;; write_rapid_rotator_tables home env) w.
Proof.
  unfold bind.
  rewrite !write_rapid_rotator_tables_files, !write_marginal_rotator_tables_files.
  destruct (rotator_table rapid_period_mask env) as [t1|e1] eqn:Ht1; [|done].
  destruct (rotator_table marginal_period_mask env) as [t2|e2] eqn:Ht2; [|done].
  destruct (no_rows t1) eqn:Hrows1; [done|].
  destruct (no_rows t2) eqn:Hrows2; [done|].
  intros _ _.
  rewrite write_rapid_rotator_tables_files, write_marginal_rotator_tables_files, Ht1, Ht2.
  rewrite Hrows1, Hrows2.
  unfold set_files. cbn [figures files stdout rng].
  pose proof (table_paths_distinct home "table1.tex" "table2.tex"
                eq_refl eq_refl eq_refl eq_refl ltac:(done)) as H1.
  pose proof (table_paths_distinct home "table1.tex" "table2.txt"
                eq_refl eq_refl eq_refl eq_refl ltac:(done)) as H2.
  pose proof (table_paths_distinct home "table1.txt" "table2.tex"
                eq_refl eq_refl eq_refl eq_refl ltac:(done)) as H3.
  pose proof (table_paths_distinct home "table1.txt" "table2.txt"
                eq_refl eq_refl eq_refl eq_refl ltac:(done)) as H4.
  by rewrite insert_pairs_commute.
Qed.

Lemma table_writers_commute_witness :
  (write_rapid_rotator_tables sample_home sample_env ;;;
   write_marginal_rotator_tables sample_home sample_env) sample_world
  = (write_marginal_rotator_tables sample_home sample_env ;;;
     write_rapid_rotator_tables sample_home sample_env) sample_world.
Proof.
  apply (table_writers_commute sample_home sample_env sample_world).
  - vm_compute. reflexivity.
  - vm_compute. reflexivity.
Defined.

(** ** The two period cuts together *)

Lemma period_cuts_union (p : fval) :
  rapid_period_cut p || marginal_period_cut p
  = float_gt p (Finite (3 # 2)) && float_lt p (Finite 11).
Proof.
  unfold rapid_period_cut, marginal_period_cut, float_gt.
  destruct p as [| | |q]; try reflexivity.
  cbn [float_lt float_le].
  destruct (Qle_bool q 7) eqn:Hle.
  - assert (Hd : Qlt_bool q 11 = true).
    { apply Qlt_bool_iff. apply Qle_bool_iff in Hle. lra. }
    rewrite Hd. unfold Qlt_bool at 2. rewrite Hle. cbn.
    by rewrite !andb_true_r, orb_false_r.
  - assert (Ha : Qlt_bool (3 # 2) q = true).
    { apply Qlt_bool_iff. apply not_true_iff_false in Hle.
      rewrite Qle_bool_iff in Hle. lra. }
    rewrite Ha. unfold Qlt_bool at 1. rewrite Hle. cbn. done.
Qed.

(** X12: between them the two selections keep exactly the rows whose
    period is above 1.5 and below 11 days: 7 days is not a gap. *)
Theorem period_selections_cover (mcq_dwarfs : Table) (rapid marginal : list bool) :
  rapid_period_mask mcq_dwarfs = Ok rapid ->
  marginal_period_mask mcq_dwarfs = Ok marginal ->
  zip_with orb rapid marginal
  = map (selects (fun p => float_gt p (Finite (3 # 2)) && float_lt p (Finite 11)))
        (rows mcq_dwarfs).
Proof.
  intros Hrapid Hmarginal.
  destruct (rapid_period_mask_inv _ _ Hrapid) as [Hcol Hnum].
  rewrite rapid_period_mask_ok in Hrapid by done.
  rewrite marginal_period_mask_ok in Hmarginal by done.
  injection Hrapid as <-. injection Hmarginal as <-.
  induction (rows mcq_dwarfs) as [|r l IH]; [done|].
  cbn [map zip_with]. inversion Hnum as [|? ? _ Hl]; subst. rewrite IH by done.
  f_equal. unfold selects. destruct (row_period r); [apply period_cuts_union | done].
Qed.

Lemma period_selections_cover_witness :
  zip_with orb [true; true; false; false; true] [false; false; false; true; false]
  = map (selects (fun p => float_gt p (Finite (3 # 2)) && float_lt p (Finite 11)))
        (rows sample_mcq_dwarfs).
Proof.
  apply (period_selections_cover sample_mcq_dwarfs).
  - vm_compute. reflexivity.
  - vm_compute. reflexivity.
Defined.

(** ** Where figures are saved *)

(** X13: for a non-empty file name and a suffix without slashes, below a
    directory that is not the bare root, [build_filepath] gives the
    directory, a slash, the file name, a dot and the suffix. *)
Theorem build_filepath_under_toplevel (toplevel : Path) (filename suffix : string) :
  parts toplevel <> [] ->
  filename <> "" ->
  plain_name filename = true ->
  plain_name suffix = true ->
  build_filepath toplevel filename suffix
  = path_str toplevel +:+ "/" +:+ filename +:+ "." +:+ suffix.
Proof.
  intros Hparts Hne Hfile Hsuffix. unfold build_filepath.
  change (String.concat "." [filename; suffix]) with (filename +:+ "." +:+ suffix).
  apply path_str_child; [done| |].
  - apply plain_name_app; [done|]. by apply (plain_name_app ".").
  - unfold path_component. destruct filename as [|x f]; [done|].
    change (String.eqb (String x f +:+ "." +:+ suffix) "") with false.
    change (String.eqb (String x f +:+ "." +:+ suffix) ".")
      with (if Ascii.eqb x "." then String.eqb (f +:+ "." +:+ suffix) "" else false).
    assert (Hrest : String.eqb (f +:+ "." +:+ suffix) "" = false) by (by destruct f).
    rewrite Hrest. by destruct (Ascii.eqb x ".").
Qed.

Lemma build_filepath_under_toplevel_witness :
  build_filepath (FIGURE_PATH sample_home) "ms_width" PLOT_SUFFIX
  = path_str (FIGURE_PATH sample_home) +:+ "/" +:+ "ms_width" +:+ "." +:+ PLOT_SUFFIX.
Proof.
  apply (build_filepath_under_toplevel (FIGURE_PATH sample_home) "ms_width" PLOT_SUFFIX).
  - compute_done.
  - compute_done.
  - reflexivity.
  - reflexivity.
Defined.

Lemma build_filepath_plain_apart (toplevel : Path) (filename1 filename2 suffix : string) :
  parts toplevel <> [] ->
  filename1 <> "" -> plain_name filename1 = true ->
  filename2 <> "" -> plain_name filename2 = true ->
  plain_name suffix = true ->
  filename1 <> filename2 ->
  build_filepath toplevel filename1 suffix <> build_filepath toplevel filename2 suffix.
Proof.
  intros Hparts Hne1 Hp1 Hne2 Hp2 Hs Hne.
  rewrite !build_filepath_plain by done.
  intros H. apply string_app_inj, string_app_inj, string_app_inj_r in H. done.
Qed.

(** X14: two different slash-free file names never share a path. *)
Theorem build_filepath_distinct_names (toplevel : Path) (filename1 filename2 suffix : string) :
  parts toplevel <> [] ->
  filename1 <> "" -> plain_name filename1 = true ->
  filename2 <> "" -> plain_name filename2 = true ->
  plain_name suffix = true ->
  filename1 <> filename2 ->
  build_filepath toplevel filename1 suffix <> build_filepath toplevel filename2 suffix.
Proof.
  intros Hparts Hne1 Hp1 Hne2 Hp2 Hs Hne Hpath.
  rewrite !build_filepath_plain in Hpath by done.
  apply string_app_inj, string_app_inj in Hpath.
  apply string_app_inj_r in Hpath. done.
Qed.

Lemma build_filepath_distinct_names_witness :
  build_filepath (FIGURE_PATH sample_home) "binarycut" PLOT_SUFFIX
  <> build_filepath (FIGURE_PATH sample_home) "binary_cut" PLOT_SUFFIX.
Proof.
  apply (build_filepath_distinct_names (FIGURE_PATH sample_home)
           "binarycut" "binary_cut" PLOT_SUFFIX).
  - compute_done.
  - compute_done.
  - reflexivity.
  - compute_done.
  - reflexivity.
  - reflexivity.
  - compute_done.
Defined.

Lemma parse_root_absolute (s : string) : parse_root (String "/" s) <> "".
Proof.
  unfold parse_root.
  destruct (String.prefix "///" _); [done|].
  destruct (String.prefix "//" _); [done|].
  change (String.prefix "/" (String "/" s))
    with (if ascii_dec "/" "/" then String.prefix "" s else false).
  destruct (ascii_dec "/" "/") as [_|Hne]; [|done].
  by destruct s.
Qed.

(** X15: a file name that starts with a slash is taken as an absolute path:
    the directory given to [build_filepath] has no part in the result. *)
Theorem build_filepath_absolute_filename (toplevel toplevel' : Path) (name suffix : string) :
  build_filepath toplevel (String "/" name) suffix
  = build_filepath toplevel' (String "/" name) suffix.
Proof.
  unfold build_filepath.
  change (String.concat "." [String "/" name; suffix])
    with (String "/" (name +:+ "." +:+ suffix)).
  unfold truediv, path_of_string. cbn [root].
  pose proof (parse_root_absolute (name +:+ "." +:+ suffix)) as Hroot.
  destruct (String.eqb_spec (parse_root (String "/" (name +:+ "." +:+ suffix))) "");
    done.
Qed.

Example build_filepath_absolute_example :
  build_filepath (FIGURE_PATH sample_home) "/tmp/f2" PLOT_SUFFIX = "/tmp/f2.pdf".
Proof. reflexivity. Qed.

(** X16: the figure files of the script are pairwise distinct, wherever the
    home directory is: no decorated function and no default destination
    overwrites the file of another. *)
Theorem saved_figures_distinct (home : Path) :
  NoDup ((fun filename => build_filepath (FIGURE_PATH home) filename PLOT_SUFFIX)
           <$> saved_figure_names).
Proof.
  apply NoDup_fmap_2_strong; [|compute_done].
  intros n1 n2 Hn1 Hn2 Hpath.
  assert (Hplain : Forall (fun n => n <> "" /\ plain_name n = true) saved_figure_names)
    by compute_done.
  rewrite Forall_forall in Hplain.
  destruct (Hplain n1 Hn1) as [Hne1 Hp1], (Hplain n2 Hn2) as [Hne2 Hp2].
  destruct (decide (n1 = n2)) as [|Hne]; [done|].
  by destruct (build_filepath_plain_apart (FIGURE_PATH home) n1 n2 PLOT_SUFFIX
                 (FIGURE_PATH_parts home) Hne1 Hp1 Hne2 Hp2 eq_refl Hne).
Qed.

(** ** What the decorator saves *)

(** X17: when the wrapped function opens no figure, the file holds an empty
    figure, whatever was open before the call: nothing of an earlier plot
    reaches the file. *)
Theorem write_plot_blank_without_drawing {A} (filename suffix : string) (toplevel : Path)
    (f : M A) (w w1 : World) (a : A) :
  f (plt_close_all w).1 = (w1, Ok a) ->
  figures w1 = [] ->
  let w2 := (write_plot filename suffix toplevel f w).1 in
  files w2 !! build_filepath toplevel filename suffix = Some (PlotFile [])
  /\ figures w2 = [[]].
Proof.
  intros Hf Hfig. cbv zeta. unfold write_plot, bind.
  unfold plt_close_all in *. cbn [fst] in Hf. rewrite Hf.
  unfold plt_savefig, ret. rewrite Hfig. cbn [fst files figures].
  split; [apply lookup_insert_eq | done].
Qed.

Lemma write_plot_blank_without_drawing_witness :
  let w2 := (write_plot "f2" PLOT_SUFFIX (FIGURE_PATH sample_home) idle_body sample_world).1 in
  files w2 !! build_filepath (FIGURE_PATH sample_home) "f2" PLOT_SUFFIX = Some (PlotFile [])
  /\ figures w2 = [[]].
Proof.
  apply (write_plot_blank_without_drawing "f2" PLOT_SUFFIX (FIGURE_PATH sample_home)
           idle_body sample_world
           (mkWorld [] ∅ ["nothing to plot"] 0) VMasked).
  - reflexivity.
  - reflexivity.
Defined.

(** ** More on the entry point *)

Lemma bind_ret_tt (m : M unit) (w : World) : bind m (fun _ => ret tt) w = m w.
Proof. unfold bind, ret. by destruct (m w) as [w1 [[]|e]]. Qed.

Lemma named_functions_lookup (names : list string) :
  Forall (fun t => t ∈ dict_keys figlist) names ->
  Forall2 (fun t f => dict_getitem figlist t = Ok f) names (named_functions names).
Proof.
  induction 1 as [|t names Ht _ IH]; [constructor|].
  destruct (figlist_key_lookup t Ht) as [_ [f Hf]].
  unfold named_functions. cbn [flat_map]. rewrite Hf. cbn [app].
  constructor; [done | exact IH].
Qed.

(** X18: given registered names only, the entry point looks every token up
    and calls the functions in the order of the tokens, one call per
    token (a repeated name runs its function again); the run stops at the
    first call that raises. *)
Theorem named_figures_run_in_order home body (genfigs : list string) (flag : bool) (w : World) :
  genfigs <> [] ->
  Forall (fun t => t ∈ dict_keys figlist) genfigs ->
  main home body (mkNamespace genfigs flag) w
  = call_each (call home body) (named_functions genfigs) w
  /\ Forall2 (fun t f => dict_getitem figlist t = Ok f) genfigs (named_functions genfigs).
Proof.
  intros Hne Hkeys. split; [|by apply named_functions_lookup].
  rewrite main_nonempty by done.
  rewrite <- (app_nil_r genfigs) at 1.
  rewrite figure_loop_prefix by done.
  apply bind_ret_tt.
Qed.

Lemma named_figures_run_in_order_witness :
  main sample_home tracing_body (mkNamespace ["SH"; "Bruntt"; "SH"] false) sample_world
  = call_each (call sample_home tracing_body) (named_functions ["SH"; "Bruntt"; "SH"])
      sample_world
  /\ Forall2 (fun t f => dict_getitem figlist t = Ok f) ["SH"; "Bruntt"; "SH"]
             (named_functions ["SH"; "Bruntt"; "SH"]).
Proof.
  apply (named_figures_run_in_order sample_home tracing_body ["SH"; "Bruntt"; "SH"] false
           sample_world).
  - compute_done.
  - compute_done.
Defined.

(** X19: the name [binarity] runs [plot_binarity_diagram] as it is, without
    the decorator: open figures are not closed first and the entry point
    saves no file.  The run ends as the body ends, in the world the body
    left: normally when the body returns, with the body's exception when
    it raises. *)
Theorem binarity_saves_nothing home body (flag : bool) (w : World) :
  match body plot_binarity_diagram w with
  | (w1, Ok _) => main home body (mkNamespace ["binarity"] flag) w = (w1, Ok tt)
  | (w1, Raise e) => main home body (mkNamespace ["binarity"] flag) w = (w1, Raise e)
  end.
Proof.
  rewrite main_nonempty by done.
  change (figure_loop (call home body) ["binarity"])
    with (bind (lift (Ok plot_binarity_diagram))
               (fun fig => bind (call home body fig) (fun _ => ret tt))).
  unfold bind, lift, ret.
  change (call home body plot_binarity_diagram) with (body plot_binarity_diagram).
  by destruct (body plot_binarity_diagram w) as [w1 [a|e]].
Qed.

Lemma binarity_saves_nothing_witness :
  main sample_home unbound_body (mkNamespace ["binarity"] false) sample_world
  = (sample_world, Raise (NameError "cool_data_splitter")).
Proof.
  apply (binarity_saves_nothing sample_home unbound_body false sample_world).
Defined.

Example binarity_returning_body :
  main sample_home sample_body (mkNamespace ["binarity"] false) sample_world
  = (mkWorld [["line"]; ["stale axes"]] ∅ [] 0, Ok tt).
Proof. reflexivity. Qed.

Lemma decorator_plain (f : figure_fn) (filename : string) :
  decorator f = Some filename -> filename <> "" /\ plain_name filename = true.
Proof. destruct f; intros [= <-]; done. Qed.

(** X20: every registered name other than [binarity], given alone, closes
    the open figures, runs its function and, when that returns, saves the
    current figure as [<filename>.pdf] in the figure directory, the file
    name being the argument of the function's decorator. *)
Theorem decorated_name_saves_figure home body (key filename : string) (f : figure_fn)
    (flag : bool) (w w1 : World) (a : value) :
  dict_getitem figlist key = Ok f ->
  decorator f = Some filename ->
  body f (plt_close_all w).1 = (w1, Ok a) ->
  main home body (mkNamespace [key] flag) w
  = ((plt_savefig (path_str (FIGURE_PATH home) +:+ "/" +:+ filename +:+ ".pdf") w1).1,
     Ok tt).
Proof.
  intros Hkey Hdec Hbody. rewrite main_nonempty by done.
  cbn [figure_loop]. destruct (String.eqb_spec key "all") as [->|_]; [done|].
  rewrite Hkey. unfold bind at 1. unfold lift.
  unfold call. rewrite Hdec.
  destruct (decorator_plain f filename Hdec) as [Hne Hplain].
  unfold write_plot, bind, ret.
  unfold plt_close_all in *. cbn [fst] in Hbody. rewrite Hbody.
  rewrite build_filepath_plain by (done || apply FIGURE_PATH_parts).
  unfold plt_savefig. done.
Qed.

Lemma decorated_name_saves_figure_witness :
  main sample_home sample_body (mkNamespace ["rrfracs"] false) sample_world
  = ((plt_savefig (path_str (FIGURE_PATH sample_home) +:+ "/" +:+ "detection_fraction"
                   +:+ ".pdf")
        (mkWorld [["line"]] ∅ [] 0)).1,
     Ok tt).
Proof.
  apply (decorated_name_saves_figure sample_home sample_body "rrfracs" "detection_fraction"
           plot_rr_fractions false sample_world (mkWorld [["line"]] ∅ [] 0) (VInt 1)).
  - reflexivity.
  - reflexivity.
  - reflexivity.
Defined.

(** *** The files of a pass *)

Lemma calls_returned_ok run (fs : list figure_fn) (w w' : World) :
  call_each run fs w = (w', Ok tt) -> calls_returned run fs w = fs.
Proof.
  revert w. induction fs as [|f fs IH]; intros w; [done|].
  cbn [call_each calls_returned]. unfold bind at 1.
  destruct (run f w) as [w1 [a|e]]; [|done].
  intros Hrest. by rewrite (IH _ Hrest).
Qed.

Section FigurePass.
Variable home : Path.
Variable body : figure_fn -> M value.
(** The figure functions write no file of their own. *)
Hypothesis body_keeps_files : forall f w, files (body f w).1 = files w.

Lemma call_files (f : figure_fn) (w : World) :
  match call home body f w with
  | (w1, Ok _) =>
      dom (files w1) = dom (files w) ∪ list_to_set (option_list (figure_file home f))
  | (w1, Raise _) => dom (files w1) = dom (files w)
  end.
Proof.
  unfold call, figure_file. destruct (decorator f) as [filename|].
  - unfold write_plot, bind, ret.
    pose proof (body_keeps_files f (plt_close_all w).1) as Hfiles.
    unfold plt_close_all in *. cbn [fst files] in Hfiles |- *.
    destruct (body f _) as [w1 [a|e]]; cbn [fst] in Hfiles; [|by rewrite Hfiles].
    cbn [plt_savefig files].
    change (option_list _) with [build_filepath (FIGURE_PATH home) filename PLOT_SUFFIX].
    rewrite dom_insert_L, Hfiles, list_to_set_cons, list_to_set_nil.
    by rewrite (right_id_L ∅ (∪)), (comm_L (∪)).
  - pose proof (body_keeps_files f w) as Hfiles.
    destruct (body f w) as [w1 [a|e]]; cbn [fst] in Hfiles; [|by rewrite Hfiles].
    change (option_list _) with (@nil string).
    by rewrite Hfiles, list_to_set_nil, (right_id_L ∅ (∪)).
Qed.

Lemma call_each_files (fs : list figure_fn) (w : World) :
  dom (files (call_each (call home body) fs w).1)
  = dom (files w)
    ∪ list_to_set (omap (figure_file home) (calls_returned (call home body) fs w)).
Proof.
  revert w. induction fs as [|f fs IH]; intros w.
  - cbn [call_each calls_returned omap list_omap ret fst].
    by rewrite list_to_set_nil, (right_id_L ∅ (∪)).
  - pose proof (call_files f w) as Hcall. specialize (IH (call home body f w).1).
    cbn [call_each calls_returned]. unfold bind at 1.
    destruct (call home body f w) as [w1 [a|e]]; cbn [fst] in IH |- *.
    + rewrite IH, Hcall. cbn [omap list_omap].
      destruct (figure_file home f) as [p|].
      * change (option_list (Some p)) with [p].
        by rewrite !list_to_set_cons, list_to_set_nil, (right_id_L ∅ (∪)), (assoc_L (∪)).
      * change (option_list None) with (@nil string).
        by rewrite list_to_set_nil, (right_id_L ∅ (∪)).
    + cbn [omap list_omap]. by rewrite Hcall, list_to_set_nil, (right_id_L ∅ (∪)).
Qed.
End FigurePass.

Lemma named_functions_registered (names : list string) (f : figure_fn) :
  f ∈ named_functions names -> f ∈ dict_values figlist.
Proof. intros _. destruct f; compute_done. Qed.

(** X21: let the figure functions write no file of their own.  Then a run
    in which ["all"] follows registered names only removes no file and
    creates exactly the figure files of the decorated functions whose
    calls returned, the run having stopped at the first call that raised;
    when the run ends normally these are the seven figure files of the
    decorated registered functions. *)
Theorem all_pass_files home body (pre post : list string) (flag : bool) (w : World) :
  (forall f w, files (body f w).1 = files w) ->
  Forall (fun t => t ∈ dict_keys figlist) pre ->
  let fs := named_functions pre ++
            [Bruntt_vsini_comparison; Pleiades_vsini_comparison; asteroseismic_sample_MK;
             cool_dwarf_mk; asteroseismic_rotation_analysis; cool_dwarf_rotation_analysis;
             plot_rr_fractions; plot_binarity_diagram] in
  let r := main home body (mkNamespace (pre ++ "all" :: post) flag) w in
  dom (files r.1)
  = dom (files w)
    ∪ list_to_set (omap (figure_file home) (calls_returned (call home body) fs w))
  /\ (r.2 = Ok tt ->
      dom (files r.1)
      = dom (files w)
        ∪ list_to_set
            ((fun filename => build_filepath (FIGURE_PATH home) filename PLOT_SUFFIX)
               <$> ["Bruntt_comp"; "Pleiades_comp"; "astero"; "cool_mk_sample";
                    "astero_rot"; "cool_rot"; "detection_fraction"])).
Proof.
  intros Hbody Hpre fs r.
  assert (Hrun : r = call_each (call home body) fs w).
  { unfold r. rewrite main_nonempty by (by destruct pre).
    rewrite figure_loop_prefix by done.
    unfold fs. by rewrite call_each_app. }
  assert (Hdom : dom (files r.1)
                 = dom (files w)
                   ∪ list_to_set (omap (figure_file home)
                                    (calls_returned (call home body) fs w))).
  { rewrite Hrun. by apply call_each_files. }
  split; [exact Hdom|]. intros Hok. rewrite Hdom.
  rewrite (calls_returned_ok _ _ _ r.1)
    by (rewrite <- Hrun; destruct r as [w' res]; cbn in Hok; by subst).
  f_equal. unfold fs.
  change [Bruntt_vsini_comparison; Pleiades_vsini_comparison; asteroseismic_sample_MK;
          cool_dwarf_mk; asteroseismic_rotation_analysis; cool_dwarf_rotation_analysis;
          plot_rr_fractions; plot_binarity_diagram] with (dict_values figlist).
  rewrite omap_app, list_to_set_app_L.
  assert (Hsub : list_to_set (omap (figure_file home) (named_functions pre))
                 ⊆@{gset string} list_to_set (omap (figure_file home) (dict_values figlist))).
  { intros p. rewrite !elem_of_list_to_set, !list_elem_of_omap.
    intros (f & Hf & Hp). exists f. split; [|done].
    by eapply named_functions_registered. }
  change (omap (figure_file home) (dict_values figlist))
    with ((fun filename => build_filepath (FIGURE_PATH home) filename PLOT_SUFFIX)
            <$> ["Bruntt_comp"; "Pleiades_comp"; "astero"; "cool_mk_sample";
                 "astero_rot"; "cool_rot"; "detection_fraction"]) in *.
  by apply subseteq_union_1_L.
Qed.

Lemma all_pass_files_witness :
  let fs := [Pleiades_vsini_comparison;
             Bruntt_vsini_comparison; Pleiades_vsini_comparison; asteroseismic_sample_MK;
             cool_dwarf_mk; asteroseismic_rotation_analysis; cool_dwarf_rotation_analysis;
             plot_rr_fractions; plot_binarity_diagram] in
  let r := main sample_home unbound_body (mkNamespace (["SH"] ++ "all" :: ["nosuch"]) false)
             sample_world in
  dom (files r.1)
  = dom (files sample_world)
    ∪ list_to_set (omap (figure_file sample_home)
                     (calls_returned (call sample_home unbound_body) fs sample_world))
  /\ (r.2 = Ok tt ->
      dom (files r.1)
      = dom (files sample_world)
        ∪ list_to_set
            ((fun filename => build_filepath (FIGURE_PATH sample_home) filename PLOT_SUFFIX)
               <$> ["Bruntt_comp"; "Pleiades_comp"; "astero"; "cool_mk_sample";
                    "astero_rot"; "cool_rot"; "detection_fraction"])).
Proof.
  apply (all_pass_files sample_home unbound_body ["SH"] ["nosuch"] false sample_world).
  - intros f w. destruct f; reflexivity.
  - compute_done.
Defined.

(** With bodies that fail as those of the script do, an [all] pass
    leaves two figure files. *)
Example all_pass_files_of_script :
  let r := main sample_home unbound_body (mkNamespace ["all"] false) sample_world in
  r.2 = Raise (NameError "asteroseismic_data_splitter")
  /\ map fst (map_to_list (files r.1))
     ≡ₚ ["/home/user/papers/rotletter18/fig/Bruntt_comp.pdf";
         "/home/user/papers/rotletter18/fig/Pleiades_comp.pdf"].
Proof. vm_compute. split; [done|]. reflexivity || apply Permutation_swap. Qed.

(** ** Missing columns *)

Lemma find_first_missing (cols before after : list string) (c : string) (present : list string) :
  cols = before ++ c :: after ->
  Forall (fun b => b ∈ present) before ->
  c ∉ present ->
  List.find (fun c => negb (bool_decide (c ∈ present))) cols = Some c.
Proof.
  intros -> Hbefore Hc. induction Hbefore as [|b before Hb _ IH].
  - cbn. by rewrite bool_decide_eq_false_2.
  - cbn. by rewrite bool_decide_eq_true_2.
Qed.

(** X22: without a [Prot] column in the dwarf sample both writers raise
    [KeyError: 'Prot'] and leave the world as it is. *)
Theorem table_writers_need_period_column home env (w : World) :
  "Prot" ∉ colnames (mcquillan_corrected_splitter env ["Dwarfs"; "Right Statistics Teff"]) ->
  write_rapid_rotator_tables home env w = (w, Raise (KeyError "Prot"))
  /\ write_marginal_rotator_tables home env w = (w, Raise (KeyError "Prot")).
Proof.
  intros Hcol.
  rewrite write_rapid_rotator_tables_files, write_marginal_rotator_tables_files.
  unfold rotator_table, rapid_period_mask, marginal_period_mask, table_getitem.
  by rewrite !bool_decide_eq_false_2.
Qed.

Lemma table_writers_need_period_column_witness :
  write_rapid_rotator_tables sample_home sample_env_without_period sample_world
  = (sample_world, Raise (KeyError "Prot"))
  /\ write_marginal_rotator_tables sample_home sample_env_without_period sample_world
     = (sample_world, Raise (KeyError "Prot")).
Proof.
  apply (table_writers_need_period_column sample_home sample_env_without_period sample_world).
  compute_done.
Defined.

(** X23: when the joined table lacks one of the eight columns, the rapid
    rotator writer raises [KeyError] for the first of them that is missing,
    in the order of [abridged_cols], and writes nothing. *)
Theorem rapid_writer_reports_missing_column home env (w : World)
    (before after : list string) (c : string) :
  let mcq_dwarfs := mcquillan_corrected_splitter env ["Dwarfs"; "Right Statistics Teff"] in
  let joined := join_by_2MASS_key env (select_rows rapid_period_cut mcq_dwarfs)
                  (read_dr14_allStar env) "tm_designation" "APOGEE_ID" "left" in
  "Prot" ∈ colnames mcq_dwarfs ->
  Forall (fun r => is_Some (row_period r)) (rows mcq_dwarfs) ->
  abridged_cols = before ++ c :: after ->
  Forall (fun b => b ∈ colnames joined) before ->
  c ∉ colnames joined ->
  write_rapid_rotator_tables home env w = (w, Raise (KeyError c)).
Proof.
  intros mcq joined HProt Hnum Hcols Hbefore Hc.
  rewrite write_rapid_rotator_tables_files. unfold rotator_table.
  change (mcquillan_corrected_splitter env _) with mcq.
  rewrite rapid_period_mask_ok by done. cbn [rbind].
  rewrite table_mask_selects. cbn [rbind].
  change (join_by_2MASS_key env _ _ _ _ _) with joined.
  unfold table_getitem_cols.
  by rewrite (find_first_missing _ before after c _ Hcols Hbefore Hc).
Qed.

Lemma rapid_writer_reports_missing_column_witness :
  write_rapid_rotator_tables sample_home sample_env_without_feh sample_world
  = (sample_world, Raise (KeyError "FE_H")).
Proof.
  apply (rapid_writer_reports_missing_column sample_home sample_env_without_feh sample_world
           ["kepid"; "APOGEE_ID"; "SDSS-Teff"; "kmag"; "M_K"; "Corrected K Excess"; "Prot"]
           [] "FE_H").
  - compute_done.
  - compute_done.
  - reflexivity.
  - compute_done.
  - compute_done.
Defined.
